(** * The recommendation route of v0claytools

    A shallow embedding of [src/app/api/recommend/route.ts]: the [POST]
    handler that loads the tool catalog, normalises it, asks the language
    model for recommendations and filters, ranks and gates the answer.

    Modelling choices, in one place:
    - a JavaScript string is a [string] of code units U+0000..U+00FF; on
      that range [toLowerCase] and [trim] below are the ECMAScript ones;
    - a JavaScript number is the rational it denotes (every finite binary64
      value is one); only comparisons and the sign of a difference are used,
      and IEEE subtraction with gradual underflow keeps that sign;
    - a parsed JSON value is a [json]; an object lists its own properties in
      the order [Object.values] enumerates them;
    - the [Map] is a [gmap string Tool];
    - the collaborators (environment, [fetch], [generateObject]) are fields
      of a [World]; an exception is a [Throw] of the [result] monad. *)

From Stdlib Require Import String Ascii List QArith Lqa Permutation Sorted Lia.
From stdpp Require Import base gmap strings list pretty.

Open Scope string_scope.
Set Warnings "-register-all".

(** ** Strings *)

Module Str.

(** ECMAScript WhiteSpace and LineTerminator code units below U+0100:
    TAB, LF, VT, FF, CR, SPACE and NO-BREAK SPACE. *)
Definition isWhiteSpace (c : ascii) : bool :=
  let n := N_of_ascii c in
  ((9 <=? n) && (n <=? 13) || (n =? 32) || (n =? 160))%N.

(** The simple lower-case mapping of a code unit: A-Z, and the Latin-1
    capitals U+00C0..U+00DE except the multiplication sign U+00D7. *)
Definition lowerChar (c : ascii) : ascii :=
  let n := N_of_ascii c in
  if ((65 <=? n) && (n <=? 90)
      || (192 <=? n) && (n <=? 222) && negb (n =? 215))%N
  then ascii_of_N (n + 32) else c.

(** [String.prototype.toLowerCase] *)
Fixpoint toLowerCase (s : string) : string :=
  match s with
  | EmptyString => EmptyString
  | String c s' => String (lowerChar c) (toLowerCase s')
  end.

(** [String.prototype.trimStart] *)
Fixpoint trimStart (s : string) : string :=
  match s with
  | EmptyString => EmptyString
  | String c s' => if isWhiteSpace c then trimStart s' else s
  end.

(** [String.prototype.trimEnd] *)
Fixpoint trimEnd (s : string) : string :=
  match s with
  | EmptyString => EmptyString
  | String c s' =>
      match trimEnd s' with
      | EmptyString => if isWhiteSpace c then EmptyString else String c EmptyString
      | t => String c t
      end
  end.

(** [String.prototype.trim] *)
Definition trim (s : string) : string := trimEnd (trimStart s).

Definition isEmpty (s : string) : bool :=
  match s with EmptyString => true | _ => false end.

(** [s.split(",")]: the pieces between the commas, at least one piece. *)
Fixpoint splitComma (s : string) : list string :=
  match s with
  | EmptyString => [EmptyString]
  | String c s' =>
      if Ascii.eqb c ","%char then EmptyString :: splitComma s'
      else match splitComma s' with
           | [] => [String c EmptyString]
           | p :: ps => String c p :: ps
           end
  end.

Definition newline : string := String (ascii_of_N 10) EmptyString.
Definition dquote : string := String (ascii_of_N 34) EmptyString.

(** [arr.join(sep)] on an array of strings *)
Definition join (sep : string) (l : list string) : string := String.concat sep l.

End Str.

(** ** Parsed JSON values and the JavaScript operations on them *)

Inductive json : Type :=
| JNull
| JBool (b : bool)
| JNumber (q : Q)
| JString (s : string)
| JArray (items : list json)
| JObject (props : list (string * json)).

(** The value of an expression: [None] is [undefined]. *)
Abbreviation jsval := (option json).

(** What a [throw] carries: the two built-in errors the handler can meet,
    and [new Error(msg)]. *)
Inductive exn : Type := TypeError | SyntaxError | Error (msg : string).

Inductive result (A : Type) : Type :=
| Ok (a : A)
| Throw (e : exn).
Arguments Ok {A} a.
Arguments Throw {A} e.

Definition bind {A B} (r : result A) (k : A → result B) : result B :=
  match r with
  | Ok a => k a
  | Throw e => Throw e
  end.

Notation "'let*' x ':=' r 'in' k" := (bind r (λ x, k))
  (at level 10, x name, r at level 100, k at level 200).

Module JS.

(** ToBoolean *)
Definition truthy (v : jsval) : bool :=
  match v with
  | None | Some JNull => false
  | Some (JBool b) => b
  | Some (JNumber q) => negb (Qeq_bool q 0)
  | Some (JString s) => negb (Str.isEmpty s)
  | Some (JArray _) | Some (JObject _) => true
  end.

Definition isArray (v : jsval) : bool :=
  match v with Some (JArray _) => true | _ => false end.

(** Own property of an object, by key. *)
Fixpoint ownProp (props : list (string * json)) (k : string) : jsval :=
  match props with
  | [] => None
  | (k', v) :: rest => if String.eqb k' k then Some v else ownProp rest k
  end.

(** [o[k]] for the keys the handler reads ("tools", "data", "query" and
    the alias keys of a record): none of them is defined on a built-in
    prototype, so only an object's own property can answer, and reading
    a property of [null] or [undefined] throws. *)
Definition get (o : jsval) (k : string) : result jsval :=
  match o with
  | None | Some JNull => Throw TypeError
  | Some (JObject props) => Ok (ownProp props k)
  | Some _ => Ok None
  end.

(** [a || b]: [b] is evaluated only when [a] is falsy. *)
Definition or (a b : result jsval) : result jsval :=
  let* v := a in if truthy v then Ok v else b.

(** [Object.keys(o)] *)
Definition keys (o : jsval) : result (list string) :=
  match o with
  | None | Some JNull => Throw TypeError
  | Some (JObject props) => Ok (map fst props)
  | Some (JString s) => Ok (imap (λ i _, pretty i) (list_ascii_of_string s))
  | Some (JArray items) => Ok (imap (λ i _, pretty i) items)
  | Some _ => Ok []
  end.

(** [Object.values(o)] *)
Definition values (o : jsval) : result (list json) :=
  match o with
  | None | Some JNull => Throw TypeError
  | Some (JObject props) => Ok (map snd props)
  | Some (JString s) =>
      Ok (map (λ c, JString (String c EmptyString)) (list_ascii_of_string s))
  | Some (JArray items) => Ok items
  | Some _ => Ok []
  end.

(** [arr.find(p)] *)
Fixpoint find (p : jsval → bool) (l : list json) : jsval :=
  match l with
  | [] => None
  | x :: rest => if p (Some x) then Some x else find p rest
  end.

End JS.

(** [try { r } catch (e) { h e }] *)
Definition try_catch {A} (r : result A) (h : exn → result A) : result A :=
  match r with
  | Ok a => Ok a
  | Throw e => h e
  end.

Module ToString.
Section ToString.

(** [Number.prototype.toString], the shortest round-trip decimal; it only
    feeds the prompt text and is left to the environment. *)
Variable numberToString : Q → string.

(** ToString of a parsed JSON value, as a template literal applies it. An
    array is joined with commas, [null] elements rendering empty; an
    object answers "[object Object]" unless an own "toString" property
    (never callable in parsed JSON) hides [Object.prototype.toString],
    in which case OrdinaryToPrimitive throws. *)
Fixpoint toString (v : json) : result string :=
  match v with
  | JNull => Ok "null"
  | JBool b => Ok (if b then "true" else "false")
  | JNumber q => Ok (numberToString q)
  | JString s => Ok s
  | JArray items =>
      let* ss :=
        (fix elements (l : list json) : result (list string) :=
           match l with
           | [] => Ok []
           | x :: rest =>
               let* s := match x with JNull => Ok "" | _ => toString x end in
               let* ss := elements rest in
               Ok (s :: ss)
           end) items in
      Ok (Str.join "," ss)
  | JObject props =>
      match JS.ownProp props "toString" with
      | Some _ => Throw TypeError
      | None => Ok "[object Object]"
      end
  end.

End ToString.
End ToString.

(** ** The data of the route *)

Module Tool.
(** [normalizedTool], lines 91-100. The fields copied from the raw record
    keep whatever JSON value the record held. *)
Record t : Type := mk {
  name : string;
  description : json;
  website : json;
  category : string;
  use_cases : list string;
  integration_difficulty : string;
  pricing_model : string;
  clay_integration : json
}.
End Tool.

Module Rec.
(** One element of [object.recommendations], as [RecommendationSchema]
    types it. *)
Record t : Type := mk {
  tool_name : string;
  relevance_score : Q;
  reasoning : string
}.
End Rec.

Module Recommendation.
(** One element of [validRecommendations], lines 169-173. *)
Record t : Type := mk {
  tool : Tool.t;
  relevance_score : Q;
  reasoning : string
}.
End Recommendation.

(** The three collections section 4 of the handler fills. *)
Record Catalog : Type := mkCatalog {
  tools : list Tool.t;
  toolMap : gmap string Tool.t;
  toolNames : list string
}.

Inductive Body : Type :=
| ErrorBody (error : string)
| MessageBody (message : string)
| RecommendationsBody (recommendations : list Recommendation.t).

(** [Response.json(body, { status })]; the status defaults to 200. *)
Record Response : Type := mkResponse {
  status : Z;
  body : Body
}.

Definition Response_json (b : Body) : Response := mkResponse 200 b.
Definition Response_json_status (b : Body) (st : Z) : Response := mkResponse st b.

(** The collaborators of one request. [fetchTools] is [None] when [fetch]
    rejects, the status is not ok, or the body is not JSON; [generateObject]
    is [None] when the call throws, and otherwise the generated value,
    still to be checked against the schema. *)
Record World : Type := mkWorld {
  OPENAI_API_KEY : option string;
  numberToString : Q → string;
  fetchTools : option json;
  generateObject : string → option json
}.

(** ** Section 3 of the handler: the raw tool list (lines 37-75) *)

Definition arrayItems (v : jsval) : list json :=
  match v with Some (JArray items) => items | _ => [] end.

(** The body of the [try], after [res.json()] (lines 46-71). *)
Definition extractRawTools (j : json) : result (list json) :=
  let json := Some j in
  let* _ := JS.keys json in
  let* rawTools :=
    if JS.isArray json then Ok (arrayItems json)
    else
      let* json_tools := JS.get json "tools" in
      if JS.truthy json_tools && JS.isArray json_tools then Ok (arrayItems json_tools)
      else
        let* json_data := JS.get json "data" in
        if JS.truthy json_data && JS.isArray json_data then Ok (arrayItems json_data)
        else
          let* vals := JS.values json in
          let arrayValue := JS.find JS.isArray vals in
          if JS.truthy arrayValue then Ok (arrayItems arrayValue) else Ok []
  in
  if (length rawTools =? 0)%nat then Throw (Error "No tools array found in JSON")
  else Ok rawTools.

Definition failedToLoad : Response :=
  Response_json_status (ErrorBody "Failed to load tools list.") 500.

(** The whole [try]/[catch]: either the raw list, or the response of the
    [catch] branch. *)
Definition loadRawTools (w : World) : Response + list json :=
  match fetchTools w with
  | None => inl failedToLoad
  | Some j =>
      match extractRawTools j with
      | Ok rawTools => inr rawTools
      | Throw _ => inl failedToLoad
      end
  end.

(** ** Section 4: normalisation (lines 78-108) *)

Definition emptyCatalog : Catalog := mkCatalog [] ∅ [].

(** [a || b || c || ""] *)
Definition orEmpty (a : result jsval) : result json :=
  let* v := JS.or a (Ok (Some (JString ""))) in
  match v with
  | Some x => Ok x
  | None => Ok (JString "")
  end.

(** [gtmUseCases ? gtmUseCases.split(",").map((s) => s.trim()) : []]:
    only a string has a [split] method. *)
Definition useCasesOf (gtmUseCases : json) : result (list string) :=
  if JS.truthy (Some gtmUseCases) then
    match gtmUseCases with
    | JString s => Ok (map Str.trim (Str.splitComma s))
    | _ => Throw TypeError
    end
  else Ok [].

Definition rawName (rawTool : json) : result jsval :=
  let r := Some rawTool in
  JS.or (JS.or (JS.or (JS.get r "Name Of Tool") (JS.get r "name")) (JS.get r "Name"))
        (JS.get r "title").

(** [name && typeof name === "string" && name.trim()], with the string. *)
Definition validName (name : jsval) : option string :=
  match name with
  | Some (JString n) =>
      if JS.truthy name && negb (Str.isEmpty (Str.trim n)) then Some n else None
  | _ => None
  end.

(** The callback of [rawTools.forEach], on the three collections. *)
Definition normalizeTool (acc : Catalog) (rawTool : json) : result Catalog :=
  let r := Some rawTool in
  let* name := rawName rawTool in
  let* description :=
    orEmpty (JS.or (JS.or (JS.get r "Description") (JS.get r "description")) (JS.get r "desc")) in
  let* url := orEmpty (JS.or (JS.or (JS.get r "Url") (JS.get r "url")) (JS.get r "website")) in
  let* gtmUseCases :=
    orEmpty (JS.or (JS.or (JS.get r "GTM Use Cases") (JS.get r "use_cases")) (JS.get r "useCases")) in
  let* clayIntegration :=
    orEmpty (JS.or (JS.get r "Clay Integration Overview") (JS.get r "integration")) in
  match validName name with
  | Some name =>
      let* use_cases := useCasesOf gtmUseCases in
      let normalizedTool :=
        Tool.mk (Str.trim name) description url "Clay Integration" use_cases
                "Medium" "Varies" clayIntegration in
      Ok (mkCatalog (tools acc ++ [normalizedTool])
                    (<[Str.toLowerCase (Str.trim name) := normalizedTool]> (toolMap acc))
                    (toolNames acc ++ [Str.trim name]))
  | None => Ok acc
  end.

(** [arr.forEach(f)] with the state the callback mutates. *)
Fixpoint forEach {S} (f : S → json → result S) (l : list json) (acc : S) : result S :=
  match l with
  | [] => Ok acc
  | x :: rest => let* acc' := f acc x in forEach f rest acc'
  end.

Definition normalizeTools (rawTools : list json) : result Catalog :=
  forEach normalizeTool rawTools emptyCatalog.

(** ** Section 5: the prompt and the model call (lines 119-146) *)

(** [toolNames.map((name, i) => `${i + 1}. ${name}`)] *)
Definition numberedNames (toolNames : list string) : list string :=
  imap (λ i name, pretty (i + 1)%nat ++ ". " ++ name) toolNames.

(** [tools.map((t) => `- ${t.name}: ${t.description}`)] *)
Fixpoint toolDetails (numberToString : Q → string) (ts : list Tool.t)
  : result (list string) :=
  match ts with
  | [] => Ok []
  | t :: rest =>
      let* d := ToString.toString numberToString (Tool.description t) in
      let* ds := toolDetails numberToString rest in
      Ok (("- " ++ Tool.name t ++ ": " ++ d) :: ds)
  end.

Definition buildPrompt (numberToString : Q → string) (query : string) (cat : Catalog)
  : result string :=
  let* details := toolDetails numberToString (tools cat) in
  Ok (Str.join Str.newline
    [ "";
      "You are a Clay workflow consultant helping users find the right tools.";
      "";
      "User request: " ++ Str.dquote ++ Str.trim query ++ Str.dquote;
      "";
      "You MUST ONLY recommend tools from this exact list. Use the EXACT tool names as they appear:";
      "";
      Str.join Str.newline (numberedNames (toolNames cat));
      "";
      "Tool details for context:";
      Str.join Str.newline details;
      "";
      "RULES:";
      "1. ONLY use tool names from the numbered list above";
      "2. Recommend 3-5 most relevant tools";
      "3. Calculate relevance score 0-1 based on how well each tool matches the user's needs";
      "4. Provide clear reasoning for each recommendation";
      "5. Use the EXACT tool name as it appears in the list";
      "";
      "Analyze the user's request and recommend the most relevant tools.";
      "" ]).

(** [RecommendationSchema], lines 8-16: the element object. *)
Definition parseRec (v : json) : option Rec.t :=
  match v with
  | JObject props =>
      match JS.ownProp props "tool_name",
            JS.ownProp props "relevance_score",
            JS.ownProp props "reasoning" with
      | Some (JString n), Some (JNumber q), Some (JString r) =>
          if Qle_bool 0 q && Qle_bool q 1 then Some (Rec.mk n q r) else None
      | _, _, _ => None
      end
  | _ => None
  end.

Fixpoint parseRecs (l : list json) : option (list Rec.t) :=
  match l with
  | [] => Some []
  | v :: rest =>
      match parseRec v, parseRecs rest with
      | Some r, Some rs => Some (r :: rs)
      | _, _ => None
      end
  end.

(** [RecommendationSchema]: the outer object; the result is
    [object.recommendations]. *)
Definition RecommendationSchema (v : json) : option (list Rec.t) :=
  match v with
  | JObject props =>
      match JS.ownProp props "recommendations" with
      | Some (JArray items) => parseRecs items
      | _ => None
      end
  | _ => None
  end.

(** [await generateObject({ model, schema, prompt })]: a failed call and a
    value that violates the schema both throw. *)
Definition callModel (w : World) (prompt : string) : result (list Rec.t) :=
  match generateObject w prompt with
  | None => Throw (Error "generateObject")
  | Some v =>
      match RecommendationSchema v with
      | Some recommendations => Ok recommendations
      | None => Throw (Error "schema")
      end
  end.

(** ** Section 6: filter, rank and gate (lines 150-192) *)

(** The callback of [.map] at lines 152-174; [None] is [null]. *)
Definition matchRecommendation (toolMap : gmap string Tool.t) (rec : Rec.t)
  : option Recommendation.t :=
  if Str.isEmpty (Rec.tool_name rec) || String.eqb (Rec.tool_name rec) "undefined"
  then None
  else
    let lowerToolName := Str.toLowerCase (Rec.tool_name rec) in
    match toolMap !! lowerToolName with
    | None => None
    | Some matchedTool =>
        Some (Recommendation.mk matchedTool (Rec.relevance_score rec) (Rec.reasoning rec))
    end.

(** [.filter(Boolean)] on an array of objects and [null]s *)
Fixpoint filterBoolean {A} (l : list (option A)) : list A :=
  match l with
  | [] => []
  | Some a :: rest => a :: filterBoolean rest
  | None :: rest => filterBoolean rest
  end.

(** [(a, b) => b.relevance_score - a.relevance_score] *)
Definition byScoreDesc (a b : Recommendation.t) : Q :=
  Recommendation.relevance_score b - Recommendation.relevance_score a.

(** [Array.prototype.sort(cmp)]. ECMAScript requires a stable sort, and for
    a consistent comparator the stable order is unique; insertion from the
    right computes it: [x] goes after [y] only when [cmp x y > 0]. *)
Fixpoint sortInsert {A} (cmp : A → A → Q) (x : A) (l : list A) : list A :=
  match l with
  | [] => [x]
  | y :: rest =>
      if negb (Qle_bool (cmp x y) 0) then y :: sortInsert cmp x rest
      else x :: y :: rest
  end.

Definition sort {A} (cmp : A → A → Q) (l : list A) : list A :=
  foldr (sortInsert cmp) [] l.

(** [object.recommendations.map(...).filter(Boolean)], lines 151-175. *)
Definition survivors (toolMap : gmap string Tool.t) (recs : list Rec.t)
  : list Recommendation.t :=
  filterBoolean (map (matchRecommendation toolMap) recs).

Definition validRecommendations (toolMap : gmap string Tool.t) (recs : list Rec.t)
  : list Recommendation.t :=
  sort byScoreDesc (survivors toolMap recs).

(** [0.3], the binary64 value the literal denotes. *)
Definition MIN_RELEVANCE : Q := 5404319552844595 # 18014398509481984.

Definition hasStrongMatch (valid : list Recommendation.t) : bool :=
  existsb (λ rec, Qle_bool MIN_RELEVANCE (Recommendation.relevance_score rec)) valid.

Definition noMatchMessage : string :=
  "Sorry we couldn't recommend a tool for this use case. You can submit your use case to tanay@claybootcamp.com or check out the whole list of tools at https://remarkable-lily-32f8dd.netlify.app/".

(** Lines 180-192. *)
Definition gate (valid : list Recommendation.t) : Response :=
  if (length valid =? 0)%nat || negb (hasStrongMatch valid)
  then Response_json (MessageBody noMatchMessage)
  else Response_json (RecommendationsBody valid).

(** ** The handler *)

(** [!query || typeof query !== "string" || !query.trim()], negated. *)
Definition validQuery (query : jsval) : option string :=
  match query with
  | Some (JString q) =>
      if negb (JS.truthy query) || Str.isEmpty (Str.trim q) then None else Some q
  | _ => None
  end.

Definition hasApiKey (w : World) : bool :=
  match OPENAI_API_KEY w with
  | Some k => negb (Str.isEmpty k)
  | None => false
  end.

(** [POST]. [reqBody] is what [req.json()] parses, [None] when the body is
    not JSON. A [Throw] is an exception that leaves the handler. *)
Definition POST (w : World) (reqBody : option json) : result Response :=
  if negb (hasApiKey w)
  then Ok (Response_json_status (ErrorBody "OPENAI_API_KEY is missing.") 500)
  else
    let* parsed := match reqBody with Some b => Ok b | None => Throw SyntaxError end in
    let* query := JS.get (Some parsed) "query" in
    match validQuery query with
    | None => Ok (Response_json_status (ErrorBody "Missing or empty query.") 400)
    | Some query =>
        match loadRawTools w with
        | inl response => Ok response
        | inr rawTools =>
            let* cat := normalizeTools rawTools in
            if (length (tools cat) =? 0)%nat
            then Ok (Response_json_status (ErrorBody "No valid tools found in the data") 500)
            else
              try_catch
                (let* prompt := buildPrompt (numberToString w) query cat in
                 let* recommendations := callModel w prompt in
                 Ok (gate (validRecommendations (toolMap cat) recommendations)))
                (λ aiError, Ok (Response_json_status (ErrorBody "AI processing failed") 500))
        end
    end.

(** ** Views of the handler used to state its properties *)

(** What the [forEach] callback makes of one record, apart from the
    collections: it throws, drops the record ([None]) or keeps a tool. *)
Definition normalizedTool (rawTool : json) : result (option Tool.t) :=
  let* cat := normalizeTool emptyCatalog rawTool in
  Ok (head (tools cat)).

(** The key a kept tool is filed under: its name is already trimmed. *)
Definition toolKey (t : Tool.t) : string := Str.toLowerCase (Tool.name t).

(** The three writes of lines 102-104. *)
Definition record (acc : Catalog) (t : Tool.t) : Catalog :=
  mkCatalog (tools acc ++ [t])
            (<[toolKey t := t]> (toolMap acc))
            (toolNames acc ++ [Tool.name t]).

(** The tools the records of a catalog yield, in order. *)
Fixpoint keptTools (rawTools : list json) : result (list Tool.t) :=
  match rawTools with
  | [] => Ok []
  | r :: rest =>
      let* o := normalizedTool r in
      let* ts := keptTools rest in
      Ok (match o with Some t => t :: ts | None => ts end)
  end.

(** The name a record is kept under, as the record spells it: the first
    truthy alias, when it is a string that is not blank. *)
Definition nameOf (rawTool : json) : option string :=
  match rawName rawTool with
  | Ok name => validName name
  | Throw _ => None
  end.

(** The key of the lookup map a record is filed under. *)
Definition keyOf (rawTool : json) : option string :=
  match nameOf rawTool with
  | Some n => Some (Str.toLowerCase (Str.trim n))
  | None => None
  end.

(** The alias keys of the name, in the order the handler reads them. *)
Definition nameAliases : list string := ["Name Of Tool"; "name"; "Name"; "title"].

(** No alias key of the record holds text that is not blank. *)
Definition NoUsableName (rawTool : json) : Prop :=
  ∀ k s, k ∈ nameAliases → JS.get (Some rawTool) k = Ok (Some (JString s)) →
         Str.trim s = EmptyString.

(** The extraction policy in the specification's words: the root array;
    else the array under "tools"; else the array under "data"; else the
    first array-valued property, in the order the property list is given
    in. On a parsed value that is the order [Object.values] enumerates;
    on a document read as a [json] it is the order of the text. *)
Definition extractionPolicy (j : json) : option (list json) :=
  match j with
  | JArray items => Some items
  | JObject props =>
      match JS.ownProp props "tools" with
      | Some (JArray items) => Some items
      | _ =>
          match JS.ownProp props "data" with
          | Some (JArray items) => Some items
          | _ =>
              match JS.find JS.isArray (map snd props) with
              | Some (JArray items) => Some items
              | _ => None
              end
          end
      end
  | _ => None
  end.

Definition score := Recommendation.relevance_score.

(** [a] may stand before [b] in a list of descending scores. *)
Definition desc (a b : Recommendation.t) : Prop := (score b <= score a)%Q.

(** The request passes the credential and query checks. *)
Definition AcceptsQuery (w : World) (reqBody : option json) (query : string) : Prop :=
  hasApiKey w = true ∧
  ∃ parsed q, reqBody = Some parsed ∧ JS.get (Some parsed) "query" = Ok q ∧
              validQuery q = Some query.

(** The request reaches section 6 with catalog [cat] and the model's
    answer [object]. *)
Definition Reaches (w : World) (reqBody : option json)
           (cat : Catalog) (object : list Rec.t) : Prop :=
  ∃ query rawTools prompt,
    AcceptsQuery w reqBody query ∧
    loadRawTools w = inr rawTools ∧
    normalizeTools rawTools = Ok cat ∧
    tools cat ≠ [] ∧
    buildPrompt (numberToString w) query cat = Ok prompt ∧
    callModel w prompt = Ok object.

(** A returned recommendation [r] stems from an element of the model's
    answer whose name is usable and is filed in the lookup map, and its
    [tool] is the very record the map holds. *)
Definition FromCatalog (cat : Catalog) (object : list Rec.t)
           (r : Recommendation.t) : Prop :=
  ∃ rec, rec ∈ object ∧
         Rec.tool_name rec ≠ EmptyString ∧ Rec.tool_name rec ≠ "undefined" ∧
         toolMap cat !! Str.toLowerCase (Rec.tool_name rec) = Some (Recommendation.tool r) ∧
         Recommendation.relevance_score r = Rec.relevance_score rec ∧
         Recommendation.reasoning r = Rec.reasoning rec.

(** An element of the model's answer that the validation pass must drop. *)
Definition Unusable (cat : Catalog) (rec : Rec.t) : Prop :=
  Rec.tool_name rec = EmptyString ∨ Rec.tool_name rec = "undefined" ∨
  toolMap cat !! Str.toLowerCase (Rec.tool_name rec) = None.

(** ** Fixtures: one catalog document and a few requests *)

Module Fixture.

Definition emailCheck : json :=
  JObject [("Name Of Tool", JString "EmailCheck Pro");
           ("Description", JString "bulk email verification");
           ("GTM Use Cases", JString "verify emails, clean lists ,scoring")].

Definition acme : json :=
  JObject [("name", JString "  Acme Tool "); ("url", JString "https://acme.example")].

Definition blank : json := JObject [("name", JString "   ")].

Definition acmeAgain : json :=
  JObject [("title", JString "ACME TOOL"); ("desc", JString "second entry")].

Definition rawTools : list json := [emailCheck; acme; blank; acmeAgain].

Definition document : json :=
  JObject [("version", JString "1"); ("tools", JArray rawTools)].

Definition rec (tool_name : string) (relevance_score : Q) : json :=
  JObject [("tool_name", JString tool_name);
           ("relevance_score", JNumber relevance_score);
           ("reasoning", JString "fits the request")].

Definition answer (recs : list json) : json :=
  JObject [("recommendations", JArray recs)].

(** The model praises EmailCheck Pro, is lukewarm about Acme and makes
    one tool up. *)
Definition mixed : json :=
  answer [rec "acme tool" (1 # 10); rec "Totally Made Up Tool" (8 # 10);
          rec "EmailCheck Pro" (92 # 100)].

(** Nothing the model returns clears the threshold. *)
Definition weak : json :=
  answer [rec "Acme Tool" (2 # 10); rec "emailcheck pro" (1 # 10)].

Definition world (doc generated : json) : World :=
  mkWorld (Some "sk-test") (λ _, "0") (Some doc) (λ _, Some generated).

Definition request : option json :=
  Some (JObject [("query", JString " verify email addresses ")]).

Definition catalog : Catalog :=
  match normalizeTools rawTools with
  | Ok cat => cat
  | Throw _ => emptyCatalog
  end.

Definition object (generated : json) : list Rec.t :=
  match RecommendationSchema generated with
  | Some recs => recs
  | None => []
  end.

Definition tool (key : string) : Tool.t :=
  match toolMap catalog !! key with
  | Some t => t
  | None => Tool.mk "" JNull JNull "" [] "" "" JNull
  end.

End Fixture.

(** ** Further views of the route *)

(** The use-cases value the callback settles on (line 87). *)
Definition rawUseCases (rawTool : json) : result json :=
  let r := Some rawTool in
  orEmpty (JS.or (JS.or (JS.get r "GTM Use Cases") (JS.get r "use_cases"))
                 (JS.get r "useCases")).

(** A record the callback can process: it is not [null], and if it has a
    valid name, the use-cases value it settles on is text or falsy. *)
Definition Processable (rawTool : json) : Prop :=
  rawTool ≠ JNull ∧
  (is_Some (nameOf rawTool) →
   ∀ v, rawUseCases rawTool = Ok v → JS.truthy (Some v) = true → ∃ s, v = JString s).

(** The body [JSON.stringify({ query })] parses to. *)
Definition queryBody (query : string) : option json :=
  Some (JObject [("query", JString query)]).

Definition keyMissing : Response :=
  mkResponse 500 (ErrorBody "OPENAI_API_KEY is missing.").
Definition invalidQuery : Response :=
  mkResponse 400 (ErrorBody "Missing or empty query.").

Definition countCommas (s : string) : nat :=
  length (List.filter (λ c, Ascii.eqb c ","%char) (list_ascii_of_string s)).

(** ** From the JSON document to the parsed value *)

Module Document.

(** A [json] can also be read as the document itself: an object then
    lists its members as the text has them, repeated keys included.
    [parse] gives the value [res.json()] hands to the handler. *)

Definition digit (c : ascii) : option N :=
  let n := N_of_ascii c in
  if ((48 <=? n) && (n <=? 57))%N then Some (n - 48)%N else None.

Fixpoint decimal (acc : N) (s : string) : option N :=
  match s with
  | EmptyString => Some acc
  | String c rest =>
      match digit c with
      | Some d => decimal (10 * acc + d)%N rest
      | None => None
      end
  end.

(** An array index: the canonical decimal spelling (no leading zero) of an
    integer below 2^32 - 1. *)
Definition arrayIndex (k : string) : option N :=
  match k with
  | EmptyString => None
  | String c rest =>
      if Ascii.eqb c "0"%char && negb (Str.isEmpty rest) then None
      else match decimal 0 k with
           | Some n => if (n <? 4294967295)%N then Some n else None
           | None => None
           end
  end.

(** CreateDataProperty: a key already there keeps its place and takes the
    new value; a new key goes last. *)
Fixpoint define (props : list (string * json)) (k : string) (v : json)
  : list (string * json) :=
  match props with
  | [] => [(k, v)]
  | (k', v') :: rest =>
      if String.eqb k' k then (k', v) :: rest else (k', v') :: define rest k v
  end.

(** The properties the members of an object create, in creation order. *)
Definition created (members : list (string * json)) : list (string * json) :=
  foldl (λ props kv, define props kv.1 kv.2) [] members.

Fixpoint insertIndexed (i : N) (kv : string * json)
         (l : list (N * (string * json))) : list (N * (string * json)) :=
  match l with
  | [] => [(i, kv)]
  | (j, kv') :: rest =>
      if (i <? j)%N then (i, kv) :: l else (j, kv') :: insertIndexed i kv rest
  end.

(** OrdinaryOwnPropertyKeys, the order of [Object.keys] and
    [Object.values]: the array-index keys in ascending numeric order, then
    the other keys in creation order. *)
Definition ownProperties (props : list (string * json)) : list (string * json) :=
  let indexed :=
    foldr (λ kv acc, match arrayIndex kv.1 with
                     | Some i => insertIndexed i kv acc
                     | None => acc
                     end) [] props in
  let named :=
    List.filter (λ kv, match arrayIndex kv.1 with Some _ => false | None => true end)
                props in
  (map snd indexed ++ named)%list.

(** [JSON.parse], on the structure of the text. *)
Fixpoint parse (d : json) : json :=
  match d with
  | JArray items => JArray (map parse items)
  | JObject members =>
      JObject (ownProperties (created (map (λ kv, (kv.1, parse kv.2)) members)))
  | _ => d
  end.

End Document.

(** ** The page, [src/app/page.tsx] *)

Module Page.

(** [toolsArray] after lines 57-74 of [loadTools], from the parsed data. *)
Definition toolsArray (d : json) : result (list json) :=
  let data := Some d in
  if JS.isArray data then Ok (arrayItems data)
  else
    let* data_tools := JS.get data "tools" in
    if JS.truthy data_tools && JS.isArray data_tools then Ok (arrayItems data_tools)
    else
      let* data_data := JS.get data "data" in
      if JS.truthy data_data && JS.isArray data_data then Ok (arrayItems data_data)
      else
        let* vals := JS.values data in
        let firstArrayValue := JS.find JS.isArray vals in
        if JS.truthy firstArrayValue then Ok (arrayItems firstArrayValue) else Ok [].

(** The state [loadTools] sets from the parsed data (lines 79-84). *)
Inductive Loaded : Type :=
| SetTools (toolsArray : list json)
| SetLoadError (message : string).

(** Lines 57-84; a [Throw] is caught at line 85. *)
Definition loadParsed (d : json) : result Loaded :=
  let* toolsArray := toolsArray d in
  if (length toolsArray =? 0)%nat then Ok (SetLoadError "No tools found in the JSON file")
  else Ok (SetTools toolsArray).

(** The badge of line 167. *)
Definition toolsBadge (toolsLoading : bool) (tools : list json) : string :=
  if toolsLoading then "Loading..." else pretty (length tools) ++ "+ Curated Tools".

(** The part of the component state a search touches. The data of a
    response is the body the route answers with. *)
Record State : Type := mkState {
  query : string;
  recommendations : option Body;
  loading : bool
}.

(** What [fetch("/api/recommend")] comes to: it rejects, or it resolves
    with a status and a body, [None] when the body is not JSON. *)
Inductive Exchange : Type :=
| Rejected
| Answered (status : Z) (data : option Body).

(** [response.ok] *)
Definition ok (status : Z) : bool := ((200 <=? status) && (status <=? 299))%Z.

(** [!query.trim()], negated: the guard of line 97 (and of the button,
    line 226). *)
Definition sends (query : string) : bool := negb (Str.isEmpty (Str.trim query)).

(** [handleSearch], lines 96-131: the state when it has finished, and
    whether it raised the alert. *)
Definition handleSearch (send : string → Exchange) (s : State) : State * bool :=
  if negb (sends (query s)) then (s, false)
  else
    match send (query s) with
    | Answered status (Some data) =>
        if ok status then (mkState (query s) (Some data) false, false)
        else (mkState (query s) None false, true)
    | Answered _ None | Rejected => (mkState (query s) None false, true)
    end.

(** The exchange when the other end is the route of this repository. An
    exception that leaves the handler is answered by the framework with
    status 500 and a body that is not JSON. *)
Definition viaRoute (w : World) (query : string) : Exchange :=
  match POST w (queryBody query) with
  | Ok r => Answered (status r) (Some (body r))
  | Throw _ => Answered 500 None
  end.

(** [recommendations.recommendations?.length] *)
Definition recommendationsLength (data : Body) : option nat :=
  match data with
  | RecommendationsBody recs => Some (length recs)
  | _ => None
  end.

(** The condition of the "No matching tools found" block, line 276. *)
Definition showNoResults (s : State) : bool :=
  match recommendations s with
  | Some data =>
      negb (loading s) &&
      match recommendationsLength data with Some n => (n =? 0)%nat | None => false end
  | None => false
  end.

(** The condition of the recommendation cards, line 287. *)
Definition showRecommendations (s : State) : bool :=
  match recommendations s with
  | Some data =>
      negb (loading s) &&
      match recommendationsLength data with Some n => (0 <? n)%nat | None => false end
  | None => false
  end.

(** [field || "N/A"], lines 328-336. *)
Definition orNA (field : string) : string :=
  if Str.isEmpty field then "N/A" else field.

(** The use-case badges of a card, lines 340-349. *)
Definition useCaseTags (t : Tool.t) : list string :=
  if (0 <? length (Tool.use_cases t))%nat then take 3 (Tool.use_cases t) else [].

End Page.

(** * Properties *)

(** ** Strings *)

Module StrFacts.
Import Str.

Lemma isWhiteSpace_lowerChar c : isWhiteSpace (lowerChar c) = isWhiteSpace c.
Proof. destruct c as [[] [] [] [] [] [] [] []]; reflexivity. Qed.

Lemma lowerChar_idem c : lowerChar (lowerChar c) = lowerChar c.
Proof. destruct c as [[] [] [] [] [] [] [] []]; reflexivity. Qed.

Lemma toLowerCase_idem s : toLowerCase (toLowerCase s) = toLowerCase s.
Proof. induction s as [|c s IH]; simpl; [reflexivity|]. by rewrite lowerChar_idem, IH. Qed.

Lemma length_toLowerCase s : String.length (toLowerCase s) = String.length s.
Proof. induction s as [|c s IH]; simpl; congruence. Qed.

Lemma toLowerCase_empty s : toLowerCase s = EmptyString → s = EmptyString.
Proof. destruct s; [reflexivity | discriminate]. Qed.

Lemma toLowerCase_trimStart s : toLowerCase (trimStart s) = trimStart (toLowerCase s).
Proof.
  induction s as [|c s IH]; simpl; [reflexivity|].
  rewrite isWhiteSpace_lowerChar. destruct (isWhiteSpace c); [exact IH | reflexivity].
Qed.

Lemma toLowerCase_trimEnd s : toLowerCase (trimEnd s) = trimEnd (toLowerCase s).
Proof.
  induction s as [|c s IH]; simpl; [reflexivity|].
  rewrite <- IH, isWhiteSpace_lowerChar.
  destruct (trimEnd s) as [|d t]; simpl; [destruct (isWhiteSpace c)|]; reflexivity.
Qed.

Lemma toLowerCase_trim s : toLowerCase (trim s) = trim (toLowerCase s).
Proof. unfold trim. by rewrite toLowerCase_trimEnd, toLowerCase_trimStart. Qed.

Lemma length_trimStart s : (String.length (trimStart s) <= String.length s)%nat.
Proof. induction s as [|c s IH]; simpl; [lia|]. destruct (isWhiteSpace c); simpl; lia. Qed.

Lemma length_trimEnd s : (String.length (trimEnd s) <= String.length s)%nat.
Proof.
  induction s as [|c s IH]; simpl; [lia|].
  destruct (trimEnd s); [destruct (isWhiteSpace c)|]; simpl in *; lia.
Qed.

Lemma trimStart_fixed s : String.length (trimStart s) = String.length s → trimStart s = s.
Proof.
  destruct s as [|c s]; simpl; [reflexivity|].
  destruct (isWhiteSpace c); [|reflexivity].
  pose proof (length_trimStart s). lia.
Qed.

Lemma trimEnd_fixed s : String.length (trimEnd s) = String.length s → trimEnd s = s.
Proof.
  induction s as [|c s IH]; simpl; [reflexivity|].
  pose proof (length_trimEnd s) as Hle.
  destruct (trimEnd s) as [|d t] eqn:E.
  - destruct (isWhiteSpace c); simpl in *; intros H; [lia|].
    destruct s; [reflexivity | simpl in H; lia].
  - simpl in *. intros H. f_equal. apply IH. lia.
Qed.

Lemma trim_fixed s : String.length (trim s) = String.length s → trim s = s.
Proof.
  unfold trim. intros H.
  pose proof (length_trimStart s). pose proof (length_trimEnd (trimStart s)).
  assert (Hs : trimStart s = s) by (apply trimStart_fixed; lia).
  rewrite Hs in *. by apply trimEnd_fixed.
Qed.

(** The first code unit of a trimmed-at-the-end string is the first of
    the original, so [trimStart] after [trimEnd] has nothing to do once
    [trimStart] was applied. *)
Lemma trimStart_trimEnd s : trimStart (trimEnd (trimStart s)) = trimEnd (trimStart s).
Proof.
  induction s as [|c s IH]; simpl; [reflexivity|].
  destruct (isWhiteSpace c) eqn:Ec; [exact IH|].
  simpl. rewrite Ec. destruct (trimEnd s); simpl; by rewrite Ec.
Qed.

Lemma trimEnd_idem s : trimEnd (trimEnd s) = trimEnd s.
Proof.
  induction s as [|c s IH]; simpl; [reflexivity|].
  destruct (trimEnd s) as [|d t] eqn:E.
  - destruct (isWhiteSpace c) eqn:Ec; simpl; [reflexivity | by rewrite Ec].
  - simpl in *. by rewrite IH.
Qed.

Lemma trim_idem s : trim (trim s) = trim s.
Proof. unfold trim. by rewrite trimStart_trimEnd, trimEnd_idem. Qed.

(** A string whose lower-casing is a trimmed string is itself trimmed. *)
Lemma trim_of_lower_trimmed s n :
  toLowerCase s = toLowerCase (trim n) → trim s = s.
Proof.
  intros H. apply trim_fixed.
  rewrite <- (length_toLowerCase (trim s)), toLowerCase_trim, H.
  rewrite <- toLowerCase_trim, trim_idem, <- H. apply length_toLowerCase.
Qed.

End StrFacts.

(** ** The result monad *)

Lemma bind_Ok_inv {A B} (r : result A) (k : A → result B) b :
  bind r k = Ok b → ∃ a, r = Ok a ∧ k a = Ok b.
Proof. destruct r as [a|e]; simpl; [eauto | discriminate]. Qed.

Ltac inv_bind H :=
  let a := fresh "a" in
  let Ha := fresh "Ha" in
  apply bind_Ok_inv in H; destruct H as (a & Ha & H).

(** ** Normalisation *)

Lemma forEach_app {S} (f : S → json → result S) l1 l2 acc :
  forEach f (l1 ++ l2) acc = (let* a := forEach f l1 acc in forEach f l2 a).
Proof.
  revert acc. induction l1 as [|x l1 IH]; intros acc; simpl; [reflexivity|].
  destruct (f acc x); simpl; [apply IH | reflexivity].
Qed.

(** The callback factors through [normalizedTool] and [record]. *)
Lemma normalizeTool_record acc rawTool :
  normalizeTool acc rawTool =
  (let* o := normalizedTool rawTool in
   Ok (match o with Some t => record acc t | None => acc end)).
Proof.
  unfold normalizedTool, normalizeTool.
  destruct (rawName rawTool) as [name|]; simpl; [|reflexivity].
  destruct (orEmpty _) as [description|]; simpl; [|reflexivity].
  destruct (orEmpty _) as [url|]; simpl; [|reflexivity].
  destruct (orEmpty _) as [gtm|]; simpl; [|reflexivity].
  destruct (orEmpty _) as [clay|]; simpl; [|reflexivity].
  destruct (validName name) as [n|]; simpl; [|reflexivity].
  destruct (useCasesOf gtm); reflexivity.
Qed.

Lemma normalizeTools_keptTools rawTools acc :
  forEach normalizeTool rawTools acc =
  (let* ts := keptTools rawTools in Ok (foldl record acc ts)).
Proof.
  revert acc. induction rawTools as [|r rest IH]; intros acc; simpl; [reflexivity|].
  rewrite normalizeTool_record.
  destruct (normalizedTool r) as [[t|]|e]; simpl; [| |reflexivity];
    rewrite IH; destruct (keptTools rest); reflexivity.
Qed.

Lemma keptTools_app l1 l2 :
  keptTools (l1 ++ l2) =
  (let* a := keptTools l1 in let* b := keptTools l2 in Ok (a ++ b)%list).
Proof.
  induction l1 as [|r l1 IH]; simpl.
  - destruct (keptTools l2); reflexivity.
  - destruct (normalizedTool r) as [o|]; simpl; [|reflexivity].
    rewrite IH. destruct (keptTools l1); simpl; [|reflexivity].
    destruct (keptTools l2); simpl; [|reflexivity].
    destruct o; reflexivity.
Qed.

(** A kept tool carries the trimmed, non-empty name of its record. *)
Lemma normalizedTool_Some rawTool t :
  normalizedTool rawTool = Ok (Some t) →
  ∃ n, nameOf rawTool = Some n ∧ Tool.name t = Str.trim n ∧
       Str.trim n ≠ EmptyString ∧
       Tool.category t = "Clay Integration" ∧
       Tool.integration_difficulty t = "Medium" ∧
       Tool.pricing_model t = "Varies".
Proof.
  unfold normalizedTool, normalizeTool, nameOf.
  destruct (rawName rawTool) as [name|]; simpl; [|discriminate].
  destruct (orEmpty _) as [description|]; simpl; [|discriminate].
  destruct (orEmpty _) as [url|]; simpl; [|discriminate].
  destruct (orEmpty _) as [gtm|]; simpl; [|discriminate].
  destruct (orEmpty _) as [clay|]; simpl; [|discriminate].
  destruct (validName name) as [n|] eqn:Hn; simpl; [|discriminate].
  destruct (useCasesOf gtm); simpl; [|discriminate].
  intros [= <-]. exists n. simpl. repeat split.
  unfold validName in Hn. destruct name as [[]|]; try discriminate.
  destruct (JS.truthy _ && _) eqn:E; [|discriminate].
  injection Hn as ->. apply andb_true_iff in E as [_ E].
  destruct (Str.trim n); [discriminate | discriminate].
Qed.

(** A record is dropped exactly when it is not [null] and has no valid
    name. *)
Lemma normalizedTool_None rawTool :
  normalizedTool rawTool = Ok None ↔ rawTool ≠ JNull ∧ nameOf rawTool = None.
Proof.
  unfold normalizedTool, normalizeTool, nameOf, rawName.
  destruct rawTool; simpl;
    try (split; [intros _; split; [discriminate | reflexivity] | reflexivity]).
  - split; [discriminate | intros [H _]; by destruct H].
  - destruct (JS.or _ _) as [name|] eqn:E1; simpl.
    2:{ exfalso. revert E1. unfold JS.or, JS.get; simpl.
        repeat (match goal with |- context [JS.truthy ?v] => destruct (JS.truthy v) end;
                simpl); discriminate. }
    unfold orEmpty, JS.or, JS.get; simpl.
    repeat (match goal with |- context [if JS.truthy ?v then _ else _] =>
                              destruct (JS.truthy v) eqn:?; simpl end);
    repeat (match goal with |- context [match ?v with Some _ => _ | None => _ end] =>
                              destruct v eqn:?; simpl end);
    try (destruct (useCasesOf _); simpl);
    split; try discriminate; try (intros [_ ?]; discriminate); try (intros _; by split); auto.
Qed.

(** ** The collections after a run of [record]s *)

Lemma tools_foldl acc ts : tools (foldl record acc ts) = (tools acc ++ ts)%list.
Proof.
  revert acc. induction ts as [|t ts IH]; intros acc; simpl.
  - by rewrite app_nil_r.
  - rewrite IH. simpl. by rewrite <- app_assoc.
Qed.

Lemma toolNames_foldl acc ts :
  toolNames (foldl record acc ts) = (toolNames acc ++ map Tool.name ts)%list.
Proof.
  revert acc. induction ts as [|t ts IH]; intros acc; simpl.
  - by rewrite app_nil_r.
  - rewrite IH. simpl. by rewrite <- app_assoc.
Qed.

(** Records filed under other keys leave a key alone. *)
Lemma toolMap_foldl_other acc ts k :
  (∀ u, u ∈ ts → toolKey u ≠ k) →
  toolMap (foldl record acc ts) !! k = toolMap acc !! k.
Proof.
  revert acc. induction ts as [|t ts IH]; intros acc Hne; simpl; [reflexivity|].
  rewrite IH by (intros u Hu; apply Hne; by right).
  simpl. apply lookup_insert_ne. apply Hne. by left.
Qed.

(** The last record filed under a key is the one the map holds. *)
Lemma toolMap_foldl_last acc ts1 t ts2 :
  (∀ u, u ∈ ts2 → toolKey u ≠ toolKey t) →
  toolMap (foldl record acc (ts1 ++ t :: ts2)) !! toolKey t = Some t.
Proof.
  intros Hne. rewrite foldl_app. simpl.
  rewrite toolMap_foldl_other by exact Hne.
  simpl. apply lookup_insert_eq.
Qed.

(** Whatever the map holds was there before or is one of the records,
    under its own key. *)
Lemma toolMap_foldl_lookup acc ts k t :
  toolMap (foldl record acc ts) !! k = Some t →
  (t ∈ ts ∧ toolKey t = k) ∨ toolMap acc !! k = Some t.
Proof.
  revert acc. induction ts as [|u ts IH]; intros acc H; simpl in *; [by right|].
  apply IH in H as [[Hin Hk]|H].
  - left. split; [by right | exact Hk].
  - simpl in H. destruct (decide (toolKey u = k)) as [<-|Hne].
    + unfold toolKey in H. rewrite lookup_insert_eq in H. injection H as ->.
      left. split; [by left | reflexivity].
    + right. unfold toolKey in Hne. by rewrite lookup_insert_ne in H.
Qed.

Lemma toolMap_foldl_keeps acc ts k :
  is_Some (toolMap acc !! k) → is_Some (toolMap (foldl record acc ts) !! k).
Proof.
  revert acc. induction ts as [|u ts IH]; intros acc H; simpl; [exact H|].
  apply IH. simpl. destruct (decide (Str.toLowerCase (Tool.name u) = k)) as [<-|Hne].
  - rewrite lookup_insert_eq. eauto.
  - by rewrite lookup_insert_ne.
Qed.

Lemma toolMap_foldl_size acc ts :
  (size (toolMap (foldl record acc ts)) ≤ size (toolMap acc) + length ts)%nat.
Proof.
  revert acc. induction ts as [|u ts IH]; intros acc; simpl; [lia|].
  etransitivity; [apply IH|]. simpl. rewrite map_size_insert.
  destruct (toolMap acc !! _); simpl; lia.
Qed.

(** Two records under one key cost the map an entry. *)
Lemma toolMap_foldl_size_dup acc ts1 a ts2 b ts3 :
  toolKey a = toolKey b →
  (size (toolMap (foldl record acc (ts1 ++ a :: ts2 ++ b :: ts3)))
   < size (toolMap acc) + length (ts1 ++ a :: ts2 ++ b :: ts3))%nat.
Proof.
  intros Hk.
  replace (ts1 ++ a :: ts2 ++ b :: ts3)%list
    with ((ts1 ++ a :: ts2) ++ b :: ts3)%list by (by rewrite <- app_assoc).
  rewrite foldl_app. simpl.
  pose proof (toolMap_foldl_size (record (foldl record acc (ts1 ++ a :: ts2)) b) ts3) as H3.
  pose proof (toolMap_foldl_size acc (ts1 ++ a :: ts2)) as H12.
  assert (Hsome : is_Some (toolMap (foldl record acc (ts1 ++ a :: ts2)) !! toolKey b)).
  { rewrite <- Hk, foldl_app. simpl. apply toolMap_foldl_keeps. simpl.
    unfold toolKey. rewrite lookup_insert_eq. eauto. }
  simpl in H3. unfold toolKey in Hsome.
  rewrite (map_size_insert_Some _ _ _ Hsome) in H3.
  rewrite ?length_app in *. simpl in *. rewrite ?length_app in *. simpl in *. lia.
Qed.

(** ** From the records to the kept tools *)

Lemma normalizedTool_key rawTool t :
  normalizedTool rawTool = Ok (Some t) → keyOf rawTool = Some (toolKey t).
Proof.
  intros H. apply normalizedTool_Some in H as (n & Hn & Hname & _).
  unfold keyOf, toolKey. by rewrite Hn, Hname.
Qed.

Lemma keyOf_normalizedTool rawTool k o :
  keyOf rawTool = Some k → normalizedTool rawTool = Ok o →
  ∃ t, o = Some t ∧ toolKey t = k.
Proof.
  intros Hk Ho. destruct o as [t|].
  - exists t. split; [reflexivity|].
    apply normalizedTool_key in Ho. congruence.
  - apply normalizedTool_None in Ho as [_ Ho]. unfold keyOf in Hk.
    rewrite Ho in Hk. discriminate.
Qed.

(** Every kept tool comes from a record of the catalog. *)
Lemma keptTools_elem rawTools ts t :
  keptTools rawTools = Ok ts → t ∈ ts →
  ∃ r, r ∈ rawTools ∧ normalizedTool r = Ok (Some t).
Proof.
  revert ts. induction rawTools as [|r rest IH]; intros ts H Hin; simpl in H.
  - injection H as <-. by apply elem_of_nil in Hin.
  - inv_bind H. inv_bind H. injection H as <-.
    destruct a as [u|].
    + apply elem_of_cons in Hin as [->|Hin].
      * exists r. split; [by left | exact Ha].
      * destruct (IH _ Ha0 Hin) as (r' & Hr' & Hn). exists r'. split; [by right | exact Hn].
    + destruct (IH _ Ha0 Hin) as (r' & Hr' & Hn). exists r'. split; [by right | exact Hn].
Qed.

(** One kept tool per record with a valid name. *)
Lemma keptTools_length rawTools ts :
  keptTools rawTools = Ok ts →
  length ts = length (List.filter (λ r, bool_decide (is_Some (nameOf r))) rawTools).
Proof.
  revert ts. induction rawTools as [|r rest IH]; intros ts H; simpl in H.
  - by injection H as <-.
  - inv_bind H. inv_bind H. injection H as <-. simpl.
    destruct a as [u|].
    + apply normalizedTool_Some in Ha as (n & Hn & _). rewrite Hn.
      rewrite bool_decide_eq_true_2 by eauto. simpl. f_equal. by apply IH.
    + apply normalizedTool_None in Ha as [_ Hn]. rewrite Hn.
      rewrite bool_decide_eq_false_2 by (intros [? ?]; discriminate). by apply IH.
Qed.

Lemma normalizeTools_inv rawTools cat :
  normalizeTools rawTools = Ok cat →
  ∃ ts, keptTools rawTools = Ok ts ∧ cat = foldl record emptyCatalog ts.
Proof.
  unfold normalizeTools. rewrite normalizeTools_keptTools. intros H.
  inv_bind H. injection H as <-. eauto.
Qed.

(** ** Filtering and ranking *)

Lemma sortInsert_perm {A} (cmp : A → A → Q) x l : Permutation (x :: l) (sortInsert cmp x l).
Proof.
  induction l as [|y l IH]; simpl; [reflexivity|].
  destruct (negb _); [|reflexivity].
  etransitivity; [apply perm_swap|]. by apply perm_skip.
Qed.

Lemma sort_perm {A} (cmp : A → A → Q) l : Permutation l (sort cmp l).
Proof.
  induction l as [|x l IH]; simpl; [reflexivity|].
  etransitivity; [apply perm_skip, IH|]. apply sortInsert_perm.
Qed.

Lemma sortInsert_HdRel y x l :
  desc y x → HdRel desc y l → HdRel desc y (sortInsert byScoreDesc x l).
Proof.
  intros Hyx Hl. destruct l as [|z l]; simpl; [by constructor|].
  destruct (negb _); constructor; [by inversion Hl | exact Hyx].
Qed.

Lemma sortInsert_sorted x l :
  Sorted desc l → Sorted desc (sortInsert byScoreDesc x l).
Proof.
  induction 1 as [|y l Hs IH Hhd]; simpl; [repeat constructor|].
  destruct (Qle_bool (byScoreDesc x y) 0) eqn:E; simpl.
  - apply Qle_bool_iff in E. unfold byScoreDesc in E.
    constructor; [by constructor|]. constructor. unfold desc, score. lra.
  - assert (Hlt : ¬ (byScoreDesc x y <= 0)%Q)
      by (intros H'; apply Qle_bool_iff in H'; congruence).
    unfold byScoreDesc in Hlt.
    constructor; [exact IH|]. apply sortInsert_HdRel; [|exact Hhd].
    unfold desc, score. lra.
Qed.

Lemma sort_sorted l : Sorted desc (sort byScoreDesc l).
Proof. induction l as [|x l IH]; simpl; [constructor | by apply sortInsert_sorted]. Qed.

(** [Sorted] read on adjacent positions. *)
Lemma Sorted_adjacent (l : list Recommendation.t) i a b :
  Sorted desc l → l !! i = Some a → l !! S i = Some b → desc a b.
Proof.
  intros Hs. revert i. induction Hs as [|x l Hs IH Hhd]; intros i Ha Hb; [discriminate|].
  destruct i as [|i]; simpl in *.
  - injection Ha as ->. destruct l; [discriminate|]. injection Hb as ->. by inversion Hhd.
  - by apply (IH i).
Qed.

Lemma filterBoolean_length {A} (l : list (option A)) :
  (length (filterBoolean l) <= length l)%nat.
Proof. induction l as [|[a|] l IH]; simpl; lia. Qed.

Lemma filterBoolean_elem {A} (l : list (option A)) a :
  a ∈ filterBoolean l ↔ Some a ∈ l.
Proof.
  induction l as [|[b|] l IH]; simpl.
  - split; intros H; by apply elem_of_nil in H.
  - rewrite !elem_of_cons, IH. split; intros [H|H]; auto; left; congruence.
  - rewrite elem_of_cons, IH. split; [by right | intros [H|H]; [discriminate | exact H]].
Qed.

Lemma survivors_length toolMap recs :
  (length (survivors toolMap recs) <= length recs)%nat.
Proof.
  unfold survivors. etransitivity; [apply filterBoolean_length|]. by rewrite length_map.
Qed.

(** A survivor is the image of a returned object whose name is neither
    empty nor "undefined" and whose lower-cased name is a key of the map. *)
Lemma survivors_elem (toolMap : gmap string Tool.t) recs r :
  r ∈ survivors toolMap recs →
  ∃ rec, rec ∈ recs ∧
         Rec.tool_name rec ≠ EmptyString ∧ Rec.tool_name rec ≠ "undefined" ∧
         toolMap !! Str.toLowerCase (Rec.tool_name rec) = Some (Recommendation.tool r) ∧
         Recommendation.relevance_score r = Rec.relevance_score rec ∧
         Recommendation.reasoning r = Rec.reasoning rec.
Proof.
  unfold survivors. rewrite filterBoolean_elem. intros H.
  apply list_elem_of_fmap in H as (rec & Hr & Hin).
  exists rec. split; [exact Hin|].
  unfold matchRecommendation in Hr.
  destruct (Str.isEmpty (Rec.tool_name rec)) eqn:E1; [discriminate|].
  destruct (String.eqb (Rec.tool_name rec) "undefined") eqn:E2; [discriminate|].
  simpl in Hr. destruct (toolMap !! _) as [t|] eqn:E3; [|discriminate].
  injection Hr as ->. simpl. repeat split.
  - intros Hn. rewrite Hn in E1. discriminate.
  - intros Hn. rewrite Hn in E2. discriminate.
Qed.

(** ** The handler, stage by stage *)

Lemma loadRawTools_inl w r : loadRawTools w = inl r → r = failedToLoad.
Proof.
  unfold loadRawTools. destruct (fetchTools w) as [j|]; [|congruence].
  destruct (extractRawTools j); congruence.
Qed.

Lemma POST_failedToLoad w reqBody query r :
  AcceptsQuery w reqBody query → loadRawTools w = inl r →
  POST w reqBody = Ok failedToLoad.
Proof.
  intros (Hkey & parsed & q & -> & Hq & Hv) Hl. unfold POST.
  rewrite Hkey. cbn [negb bind]. rewrite Hq. cbn [bind]. rewrite Hv, Hl.
  by rewrite (loadRawTools_inl _ _ Hl).
Qed.

Lemma POST_reaches w reqBody cat object :
  Reaches w reqBody cat object →
  POST w reqBody = Ok (gate (validRecommendations (toolMap cat) object)).
Proof.
  intros (query & rawTools & prompt & (Hkey & parsed & q & -> & Hq & Hv)
          & Hl & Hn & Hne & Hp & Hm).
  unfold POST. rewrite Hkey. cbn [negb bind]. rewrite Hq. cbn [bind].
  rewrite Hv, Hl, Hn. cbn [bind].
  destruct (tools cat) eqn:Et; [congruence|]. cbn [length Nat.eqb].
  rewrite Hp. cbn [bind]. rewrite Hm. reflexivity.
Qed.

(** A response carrying recommendations can only come out of the gate. *)
Lemma POST_recommendations w reqBody st recs :
  POST w reqBody = Ok (mkResponse st (RecommendationsBody recs)) →
  ∃ cat object,
    Reaches w reqBody cat object ∧
    recs = validRecommendations (toolMap cat) object ∧
    hasStrongMatch recs = true ∧ st = 200%Z.
Proof.
  unfold POST. destruct (hasApiKey w) eqn:Hkey; cbn [negb]; [|discriminate].
  destruct reqBody as [parsed|]; cbn [bind]; [|discriminate].
  destruct (JS.get (Some parsed) "query") as [q|] eqn:Hq; cbn [bind]; [|discriminate].
  destruct (validQuery q) as [query|] eqn:Hv; [|discriminate].
  destruct (loadRawTools w) as [r|rawTools] eqn:Hl.
  { rewrite (loadRawTools_inl _ _ Hl). discriminate. }
  destruct (normalizeTools rawTools) as [cat|] eqn:Hn; cbn [bind]; [|discriminate].
  destruct (length (tools cat) =? 0)%nat eqn:Hlen; [discriminate|].
  destruct (buildPrompt _ query cat) as [prompt|] eqn:Hp;
    cbn [bind try_catch]; [|discriminate].
  destruct (callModel w prompt) as [object|] eqn:Hm;
    cbn [bind try_catch]; [|discriminate].
  unfold gate.
  destruct (length (validRecommendations (toolMap cat) object) =? 0)%nat;
    cbn [orb]; [discriminate|].
  destruct (hasStrongMatch _) eqn:Hs; cbn [negb]; [|discriminate].
  intros [= <- <-]. exists cat, object. repeat split; auto.
  exists query, rawTools, prompt. repeat split; eauto.
  intros Htools. rewrite Htools in Hlen. discriminate.
Qed.

(** ** The relevance gate *)

Lemma hasStrongMatch_Exists l :
  hasStrongMatch l = true ↔ Exists (λ r, (MIN_RELEVANCE <= score r)%Q) l.
Proof.
  unfold hasStrongMatch. rewrite existsb_exists, List.Exists_exists.
  split; intros (r & Hin & Hr); exists r; (split; [exact Hin|]);
    by apply Qle_bool_iff.
Qed.

Lemma hasStrongMatch_perm l l' :
  Permutation l l' → hasStrongMatch l = hasStrongMatch l'.
Proof.
  intros Hp. apply eq_true_iff_eq. rewrite !hasStrongMatch_Exists.
  split; intros H; [by rewrite <- Hp | by rewrite Hp].
Qed.

Lemma gate_no_match valid :
  hasStrongMatch valid = false →
  gate valid = mkResponse 200 (MessageBody noMatchMessage).
Proof. intros H. unfold gate. rewrite H. by rewrite orb_true_r. Qed.

Lemma gate_match valid :
  hasStrongMatch valid = true →
  gate valid = mkResponse 200 (RecommendationsBody valid).
Proof.
  intros H. unfold gate. rewrite H.
  destruct valid; [discriminate | reflexivity].
Qed.

(** Discharges [Reaches] on a fixture by running the stages. *)
Ltac run_stages :=
  eexists _, _, _; unfold AcceptsQuery;
  repeat match goal with
         | |- _ ∧ _ => split
         | |- ∃ _, _ => eexists
         | |- _ ≠ _ => by vm_compute
         | |- _ = _ => vm_compute; reflexivity
         end.

(** * The claims *)

(** C1. Every recommendation of a returned list references a Tool record of
    the lookup map built for the request: it stems from an element of the
    model's answer whose name is not empty, is not "undefined" and, once
    lower-cased, is a key of that map. Elements with an empty, "undefined"
    or unmatched name are dropped by the validation callback, the returned
    list is the surviving elements reordered, and it is never longer than
    the model's answer. *)
Theorem C1_recommendations_reference_catalog w reqBody st recs :
  POST w reqBody = Ok (mkResponse st (RecommendationsBody recs)) →
  ∃ cat object,
    Reaches w reqBody cat object ∧
    Forall (FromCatalog cat object) recs ∧
    (∀ rec, rec ∈ object → Unusable cat rec →
            matchRecommendation (toolMap cat) rec = None) ∧
    Permutation (survivors (toolMap cat) object) recs ∧
    (length recs <= length object)%nat.
Proof.
  intros H. apply POST_recommendations in H as (cat & object & Hr & -> & _ & _).
  exists cat, object. split; [exact Hr|].
  pose proof (sort_perm byScoreDesc (survivors (toolMap cat) object)) as Hp.
  fold (validRecommendations (toolMap cat) object) in Hp.
  repeat split.
  - apply Forall_forall. intros r Hin.
    rewrite <- Hp in Hin. by apply survivors_elem.
  - intros rec _ [Hu|[Hu|Hu]]; unfold matchRecommendation; rewrite Hu; try reflexivity.
    by destruct (_ || _).
  - exact Hp.
  - rewrite <- (Permutation_length Hp). apply survivors_length.
Qed.

Lemma C1_witness :
  ∃ cat object,
    Reaches (Fixture.world Fixture.document Fixture.mixed) Fixture.request cat object ∧
    Forall (FromCatalog cat object)
           [Recommendation.mk (Fixture.tool "emailcheck pro") (92 # 100) "fits the request";
            Recommendation.mk (Fixture.tool "acme tool") (1 # 10) "fits the request"] ∧
    (∀ rec, rec ∈ object → Unusable cat rec →
            matchRecommendation (toolMap cat) rec = None) ∧
    Permutation (survivors (toolMap cat) object)
           [Recommendation.mk (Fixture.tool "emailcheck pro") (92 # 100) "fits the request";
            Recommendation.mk (Fixture.tool "acme tool") (1 # 10) "fits the request"] ∧
    (2 <= length object)%nat.
Proof.
  apply (C1_recommendations_reference_catalog
           (Fixture.world Fixture.document Fixture.mixed) Fixture.request 200).
  vm_compute. reflexivity.
Defined.

(** C3. When the request reaches the gate and the surviving recommendations
    are none, or none of them scores at least 0.3, the handler answers with
    status 200 and the fixed guidance message: neither an error body nor a
    recommendations array. *)
Theorem C3_no_confident_match w reqBody cat object :
  Reaches w reqBody cat object →
  survivors (toolMap cat) object = [] ∨
  Forall (λ r, (score r < MIN_RELEVANCE)%Q) (survivors (toolMap cat) object) →
  POST w reqBody = Ok (mkResponse 200 (MessageBody noMatchMessage)).
Proof.
  intros Hr Hweak. rewrite (POST_reaches _ _ _ _ Hr). f_equal.
  apply gate_no_match. unfold validRecommendations.
  rewrite <- (hasStrongMatch_perm _ _ (sort_perm byScoreDesc _)).
  apply not_true_is_false. rewrite hasStrongMatch_Exists. intros Hex.
  destruct Hweak as [Hnil|Hall].
  - rewrite Hnil in Hex. inversion Hex.
  - apply List.Exists_exists in Hex as (r & Hin & Hge).
    rewrite List.Forall_forall in Hall. specialize (Hall r Hin). simpl in Hall. lra.
Qed.

Lemma C3_witness :
  POST (Fixture.world Fixture.document Fixture.weak) Fixture.request
  = Ok (mkResponse 200 (MessageBody noMatchMessage)).
Proof.
  apply (C3_no_confident_match _ _ Fixture.catalog (Fixture.object Fixture.weak)).
  - run_stages.
  - right. vm_compute. repeat constructor.
Defined.

(** C4. When the request reaches the gate and at least one surviving
    recommendation scores 0.3 or more, the handler returns the sorted list
    of all survivors: the returned list is a rearrangement of the whole
    surviving list, so entries below the threshold stay in it. *)
Theorem C4_threshold_gates_whole_list w reqBody cat object :
  Reaches w reqBody cat object →
  Exists (λ r, (MIN_RELEVANCE <= score r)%Q) (survivors (toolMap cat) object) →
  ∃ recs,
    POST w reqBody = Ok (mkResponse 200 (RecommendationsBody recs)) ∧
    recs = sort byScoreDesc (survivors (toolMap cat) object) ∧
    Permutation (survivors (toolMap cat) object) recs ∧
    (∀ r, r ∈ survivors (toolMap cat) object → (score r < MIN_RELEVANCE)%Q → r ∈ recs).
Proof.
  intros Hr Hex. exists (validRecommendations (toolMap cat) object).
  pose proof (sort_perm byScoreDesc (survivors (toolMap cat) object)) as Hp.
  repeat split.
  - rewrite (POST_reaches _ _ _ _ Hr). f_equal. apply gate_match.
    unfold validRecommendations. rewrite <- (hasStrongMatch_perm _ _ Hp).
    by apply hasStrongMatch_Exists.
  - exact Hp.
  - intros r Hin _. unfold validRecommendations. by rewrite <- Hp.
Qed.

Lemma C4_witness :
  ∃ recs,
    POST (Fixture.world Fixture.document Fixture.mixed) Fixture.request
    = Ok (mkResponse 200 (RecommendationsBody recs)) ∧
    recs = sort byScoreDesc
             (survivors (toolMap Fixture.catalog) (Fixture.object Fixture.mixed)) ∧
    Permutation (survivors (toolMap Fixture.catalog) (Fixture.object Fixture.mixed)) recs ∧
    (∀ r, r ∈ survivors (toolMap Fixture.catalog) (Fixture.object Fixture.mixed) →
          (score r < MIN_RELEVANCE)%Q → r ∈ recs).
Proof.
  apply (C4_threshold_gates_whole_list _ _ Fixture.catalog (Fixture.object Fixture.mixed)).
  - run_stages.
  - apply Exists_cons_tl, Exists_cons_hd. vm_compute. discriminate.
Defined.

(** C6. A returned recommendation list is in descending order of
    relevance_score: on every two adjacent positions the earlier score is
    greater than or equal to the later one. *)
Theorem C6_sorted_descending w reqBody st recs :
  POST w reqBody = Ok (mkResponse st (RecommendationsBody recs)) →
  ∀ i a b, recs !! i = Some a → recs !! S i = Some b →
           (Recommendation.relevance_score a >= Recommendation.relevance_score b)%Q.
Proof.
  intros H i a b Ha Hb.
  apply POST_recommendations in H as (cat & object & _ & -> & _ & _).
  exact (Sorted_adjacent _ i a b (sort_sorted _) Ha Hb).
Qed.

Lemma C6_witness : (92 # 100 >= 1 # 10)%Q.
Proof.
  apply (C6_sorted_descending
           (Fixture.world Fixture.document Fixture.mixed) Fixture.request 200
           [Recommendation.mk (Fixture.tool "emailcheck pro") (92 # 100) "fits the request";
            Recommendation.mk (Fixture.tool "acme tool") (1 # 10) "fits the request"]
           ltac:(vm_compute; reflexivity) 0%nat
           (Recommendation.mk (Fixture.tool "emailcheck pro") (92 # 100) "fits the request")
           (Recommendation.mk (Fixture.tool "acme tool") (1 # 10) "fits the request"));
    reflexivity.
Defined.

(** ** Catalog extraction *)

Lemma find_isArray_chars l :
  JS.find JS.isArray (map (λ c, JString (String c EmptyString)) l) = None.
Proof. induction l as [|c l IH]; simpl; [reflexivity | exact IH]. Qed.

(** The code of lines 46-71 computes the policy; an empty or missing array
    is the thrown error. *)
Lemma extractRawTools_policy j :
  match extractionPolicy j with
  | Some (x :: items) => extractRawTools j = Ok (x :: items)
  | _ => ∃ e, extractRawTools j = Throw e
  end.
Proof.
  destruct j as [|b|q|s|items|props]; simpl; eauto.
  - unfold extractRawTools. simpl. rewrite find_isArray_chars. simpl. eauto.
  - destruct items; [eauto | reflexivity].
  - unfold extractRawTools. simpl.
    destruct (JS.ownProp props "tools") as [[| | | |tl|]|]; simpl;
      try (destruct tl; simpl; [eauto | reflexivity]);
      rewrite ?andb_false_r;
      (destruct (JS.ownProp props "data") as [[| | | |dl|]|]; simpl;
       try (destruct dl; simpl; [eauto | reflexivity]));
      rewrite ?andb_false_r;
      (destruct (JS.find JS.isArray (map snd props)) as [[| | | |fl|]|]; simpl;
       try (destruct fl; simpl; [eauto | reflexivity]));
      try match goal with
          | |- context [if ?c then _ else _] => destruct c; simpl
          end; eauto.
Qed.

(** C7, amended. Catalog extraction is the ordered first-match-wins
    policy on the parsed document: the root array, else the array under
    "tools", else the array under "data", else the first array-valued
    property in the order [Object.values] enumerates the parsed object's
    own properties. When the policy finds a non-empty array the raw tool
    list is exactly that array, element for element and in order; when it
    finds none, or an empty one, the request fails with the
    catalog-unavailable response (status 500, "Failed to load tools
    list."). *)
Theorem C7_extraction_policy w reqBody query j :
  AcceptsQuery w reqBody query →
  fetchTools w = Some j →
  match extractionPolicy j with
  | Some (x :: items) => loadRawTools w = inr (x :: items)
  | _ =>
      POST w reqBody
      = Ok (mkResponse 500 (ErrorBody "Failed to load tools list."))
  end.
Proof.
  intros Hq Hf. pose proof (extractRawTools_policy j) as Hp.
  assert (Hfail : (∃ e, extractRawTools j = Throw e) →
                  POST w reqBody = Ok failedToLoad).
  { intros [e He]. apply (POST_failedToLoad _ _ query failedToLoad Hq).
    unfold loadRawTools. by rewrite Hf, He. }
  destruct (extractionPolicy j) as [[|x items]|]; auto.
  unfold loadRawTools. by rewrite Hf, Hp.
Qed.

Lemma C7_witness :
  loadRawTools (Fixture.world Fixture.document Fixture.mixed)
  = inr [Fixture.emailCheck; Fixture.acme; Fixture.blank; Fixture.acmeAgain] ∧
  POST (Fixture.world (JObject [("tools", JString "none"); ("items", JArray [])])
                      Fixture.mixed) Fixture.request
  = Ok (mkResponse 500 (ErrorBody "Failed to load tools list.")).
Proof.
  split.
  - apply (C7_extraction_policy (Fixture.world Fixture.document Fixture.mixed)
             Fixture.request " verify email addresses " Fixture.document).
    + unfold AcceptsQuery. split; [reflexivity|]. eexists _, _. repeat split; reflexivity.
    + reflexivity.
  - apply (C7_extraction_policy
             (Fixture.world (JObject [("tools", JString "none"); ("items", JArray [])])
                            Fixture.mixed)
             Fixture.request " verify email addresses "
             (JObject [("tools", JString "none"); ("items", JArray [])])).
    + unfold AcceptsQuery. split; [reflexivity|]. eexists _, _. repeat split; reflexivity.
    + reflexivity.
Defined.

(** C7, as it fails. In the document below the first array-valued
    property is "b"; the parsed object enumerates the array-index key "1"
    first, and line 58 takes the array under it, the last of the
    document. *)
Lemma C7_counterexample :
  let document :=
    JObject [("meta", JObject [("version", JString "1")]);
             ("b", JArray [Fixture.acme]);
             ("1", JArray [Fixture.emailCheck])] in
  extractionPolicy document = Some [Fixture.acme] ∧
  Document.parse document
  = JObject [("1", JArray [Fixture.emailCheck]);
             ("meta", JObject [("version", JString "1")]);
             ("b", JArray [Fixture.acme])] ∧
  loadRawTools (Fixture.world (Document.parse document) Fixture.mixed)
  = inr [Fixture.emailCheck].
Proof. vm_compute. repeat split. Qed.

(** ** Where the enumeration order is the document's *)

Lemma define_fresh props k v :
  k ∉ props.*1 → Document.define props k v = (props ++ [(k, v)])%list.
Proof.
  induction props as [|[k' v'] props IH]; intros Hk; simpl; [reflexivity|].
  destruct (String.eqb k' k) eqn:E.
  - apply String.eqb_eq in E as ->. exfalso. apply Hk. simpl. by left.
  - rewrite IH; [reflexivity|]. intros Hin. apply Hk. simpl. by right.
Qed.

Lemma created_distinct members :
  NoDup members.*1 → Document.created members = members.
Proof.
  unfold Document.created.
  assert (H : ∀ acc : list (string * json), NoDup (acc ++ members)%list.*1 →
                     foldl (λ props kv, Document.define props kv.1 kv.2) acc members
                     = (acc ++ members)%list).
  { induction members as [|[k v] members IH]; intros acc Hnd; simpl.
    - by rewrite app_nil_r.
    - rewrite fmap_app in Hnd. simpl in Hnd.
      assert (Hk : k ∉ acc.*1).
      { apply NoDup_app in Hnd as (_ & Hd & _). intros Hin.
        apply (Hd k Hin). by left. }
      rewrite (define_fresh _ _ _ Hk), IH; [by rewrite <- app_assoc|].
      by rewrite <- app_assoc, fmap_app. }
  intros Hnd. by apply (H []).
Qed.

Lemma ownProperties_named props :
  Forall (λ kv, Document.arrayIndex kv.1 = None) props →
  Document.ownProperties props = props.
Proof.
  unfold Document.ownProperties. intros H.
  assert (Hidx : foldr (λ kv acc, match Document.arrayIndex kv.1 with
                                  | Some i => Document.insertIndexed i kv acc
                                  | None => acc
                                  end) [] props = []).
  { induction H as [|kv l Hkv Hl IH]; simpl; [reflexivity | by rewrite Hkv]. }
  rewrite Hidx. simpl.
  induction H as [|kv l Hkv Hl IH]; simpl; [reflexivity|].
  rewrite Hkv. f_equal. apply IH.
  clear -Hl. induction Hl as [|kv' l' Hkv' _ IH']; simpl; [reflexivity | by rewrite Hkv'].
Qed.

(** An object none of whose keys is an array index or repeated keeps its
    members in the order of the document; on such a document the first
    array-valued property in document order is the one the handler takes. *)
Lemma policy_in_document_order members :
  NoDup members.*1 →
  Forall (λ kv, Document.arrayIndex kv.1 = None) members →
  extractionPolicy (Document.parse (JObject members))
  = map Document.parse <$> extractionPolicy (JObject members).
Proof.
  intros Hnd Hidx. cbn [Document.parse].
  set (g := λ kv : string * json, (kv.1, Document.parse kv.2)).
  assert (Hkeys : (map g members).*1 = members.*1).
  { clear. induction members as [|[k v] l IH]; simpl; [reflexivity | f_equal; exact IH]. }
  rewrite created_distinct by (by rewrite Hkeys).
  rewrite ownProperties_named.
  2:{ clear -Hidx. induction Hidx as [|[k v] l Hk _ IH]; constructor; assumption. }
  assert (Hown : ∀ k, JS.ownProp (map g members) k
                      = Document.parse <$> JS.ownProp members k).
  { intros k. clear. induction members as [|[k' v] l IH]; simpl; [reflexivity|].
    destruct (String.eqb k' k); [reflexivity | exact IH]. }
  assert (Hfind : JS.find JS.isArray (map snd (map g members))
                  = Document.parse <$> JS.find JS.isArray (map snd members)).
  { clear. induction members as [|[k v] l IH]; simpl; [reflexivity|].
    destruct v; simpl; try exact IH; reflexivity. }
  cbn [extractionPolicy]. rewrite !Hown, Hfind.
  destruct (JS.ownProp members "tools") as [[| | | |tl|]|]; simpl; try reflexivity;
    (destruct (JS.ownProp members "data") as [[| | | |dl|]|]; simpl; try reflexivity);
    (destruct (JS.find JS.isArray (map snd members)) as [[| | | |fl|]|]; reflexivity).
Qed.

(** ** Duplicate names *)

Lemma filter_none {A} (P : A → Prop) `{∀ x, Decision (P x)} (l : list A) :
  (∀ x, x ∈ l → ¬ P x) → filter P l = [].
Proof.
  induction l as [|x l IH]; intros Hl; [reflexivity|].
  rewrite filter_cons_False by (apply Hl; by left).
  apply IH. intros y Hy. apply Hl. by right.
Qed.

(** A map has exactly one entry under a key it holds. *)
Lemma map_entries_under_key (m : gmap string Tool.t) k t :
  m !! k = Some t →
  filter (λ e, e.1 = k) (map_to_list m) = [(k, t)].
Proof.
  intros Hk.
  assert (Hp : Permutation (map_to_list m) ((k, t) :: map_to_list (delete k m))).
  { rewrite <- (insert_delete_id m k t Hk) at 1.
    apply map_to_list_insert, lookup_delete_eq. }
  apply Permutation_singleton_r.
  rewrite Hp, filter_cons_True by reflexivity.
  apply Permutation_cons; [reflexivity|].
  rewrite filter_none; [reflexivity|].
  intros [k' t'] Hin Heq. simpl in Heq. subst k'.
  apply elem_of_map_to_list in Hin. by rewrite lookup_delete_eq in Hin.
Qed.

Lemma keptTools_cons_inv r rest ts :
  keptTools (r :: rest) = Ok ts →
  ∃ o ts', normalizedTool r = Ok o ∧ keptTools rest = Ok ts' ∧
           ts = (option_list o ++ ts')%list.
Proof.
  simpl. destruct (normalizedTool r) as [o|]; simpl; [|discriminate].
  destruct (keptTools rest) as [ts'|]; simpl; [|discriminate].
  intros [= <-]. exists o, ts'. by destruct o.
Qed.

Lemma keptTools_app_inv l1 l2 ts :
  keptTools (l1 ++ l2) = Ok ts →
  ∃ ts1 ts2, keptTools l1 = Ok ts1 ∧ keptTools l2 = Ok ts2 ∧ ts = (ts1 ++ ts2)%list.
Proof.
  rewrite keptTools_app.
  destruct (keptTools l1) as [ts1|]; simpl; [|discriminate].
  destruct (keptTools l2) as [ts2|]; simpl; [|discriminate].
  intros [= <-]. eauto.
Qed.

Lemma keptTools_split l1 a l2 b l3 ts :
  keptTools (l1 ++ a :: l2 ++ b :: l3) = Ok ts →
  ∃ ts1 oa ts2 ob ts3,
    keptTools l1 = Ok ts1 ∧ normalizedTool a = Ok oa ∧ keptTools l2 = Ok ts2 ∧
    normalizedTool b = Ok ob ∧ keptTools l3 = Ok ts3 ∧
    ts = (ts1 ++ option_list oa ++ ts2 ++ option_list ob ++ ts3)%list.
Proof.
  intros H.
  apply keptTools_app_inv in H as (ts1 & r1 & H1 & H & ->).
  apply keptTools_cons_inv in H as (oa & r2 & Ha & H & ->).
  apply keptTools_app_inv in H as (ts2 & r3 & H2 & H & ->).
  apply keptTools_cons_inv in H as (ob & ts3 & Hb & H3 & ->).
  exists ts1, oa, ts2, ob, ts3. repeat split; assumption.
Qed.

(** C9. When two records of a catalog have names that are equal after
    trimming and lower-casing, the lookup map has exactly one entry under
    that key; its value is the normalised record of an occurrence at or
    after the later of the two, and of the later one itself when no record
    after it bears the name: the last write wins. *)
Theorem C9_duplicate_names_last_wins l1 a l2 b l3 k cat :
  normalizeTools (l1 ++ a :: l2 ++ b :: l3) = Ok cat →
  keyOf a = Some k → keyOf b = Some k →
  ∃ t,
    toolMap cat !! k = Some t ∧
    filter (λ e, e.1 = k) (map_to_list (toolMap cat)) = [(k, t)] ∧
    (∃ c, c ∈ b :: l3 ∧ keyOf c = Some k ∧ normalizedTool c = Ok (Some t)) ∧
    ((∀ c, c ∈ l3 → keyOf c ≠ Some k) → normalizedTool b = Ok (Some t)).
Proof.
  intros Hn Hka Hkb.
  apply normalizeTools_inv in Hn as (ts & Hts & ->).
  apply keptTools_split in Hts
    as (ts1 & oa & ts2 & ob & ts3 & H1 & Ha & H2 & Hb & H3 & ->).
  destruct (keyOf_normalizedTool _ _ _ Hka Ha) as (ta & -> & Hta).
  destruct (keyOf_normalizedTool _ _ _ Hkb Hb) as (tb & -> & Htb).
  simpl.
  assert (Hsome : is_Some (toolMap (foldl record emptyCatalog
                    (ts1 ++ ta :: ts2 ++ tb :: ts3)) !! k)).
  { replace (ts1 ++ ta :: ts2 ++ tb :: ts3)%list
      with ((ts1 ++ ta :: ts2) ++ [tb] ++ ts3)%list by (by rewrite <- app_assoc).
    rewrite !foldl_app. apply toolMap_foldl_keeps. simpl.
    rewrite Htb, lookup_insert_eq. eauto. }
  destruct Hsome as [t Ht]. exists t.
  split; [exact Ht|]. split; [by apply map_entries_under_key|].
  assert (Hlast : (t ∈ tb :: ts3 ∧ toolKey t = k)).
  { replace (ts1 ++ ta :: ts2 ++ tb :: ts3)%list
      with ((ts1 ++ ta :: ts2) ++ tb :: ts3)%list in Ht by (by rewrite <- app_assoc).
    rewrite foldl_app in Ht. simpl in Ht.
    apply toolMap_foldl_lookup in Ht as [[Hin Hk]|Ht].
    - split; [by right | exact Hk].
    - simpl in Ht. rewrite Htb, lookup_insert_eq in Ht. injection Ht as <-.
      split; [by left | exact Htb]. }
  destruct Hlast as [Hin Hk]. split.
  - apply elem_of_cons in Hin as [->|Hin].
    + exists b. repeat split; [by left | exact Hkb | exact Hb].
    + destruct (keptTools_elem _ _ _ H3 Hin) as (c & Hc & Hnc).
      exists c. repeat split; [by right | | exact Hnc].
      rewrite (normalizedTool_key _ _ Hnc). by rewrite Hk.
  - intros Hnone. apply elem_of_cons in Hin as [->|Hin]; [exact Hb|].
    destruct (keptTools_elem _ _ _ H3 Hin) as (c & Hc & Hnc).
    exfalso. apply (Hnone c Hc).
    rewrite (normalizedTool_key _ _ Hnc). by rewrite Hk.
Qed.

Lemma C9_witness :
  ∃ t,
    toolMap Fixture.catalog !! "acme tool" = Some t ∧
    filter (λ e, e.1 = "acme tool") (map_to_list (toolMap Fixture.catalog))
    = [("acme tool", t)] ∧
    (∃ c, c ∈ Fixture.acmeAgain :: [] ∧ keyOf c = Some "acme tool" ∧
          normalizedTool c = Ok (Some t)) ∧
    ((∀ c, c ∈ [] → keyOf c ≠ Some "acme tool") →
     normalizedTool Fixture.acmeAgain = Ok (Some t)).
Proof.
  apply (C9_duplicate_names_last_wins
           [Fixture.emailCheck] Fixture.acme [Fixture.blank] Fixture.acmeAgain []
           "acme tool" Fixture.catalog); vm_compute; reflexivity.
Defined.

(** The names kept, read off the records. *)
Lemma keptTools_names rawTools ts :
  keptTools rawTools = Ok ts →
  map Tool.name ts = omap (λ r, Str.trim <$> nameOf r) rawTools.
Proof.
  revert ts. induction rawTools as [|r rest IH]; intros ts H.
  - by injection H as <-.
  - apply keptTools_cons_inv in H as (o & ts' & Ho & Hts & ->). simpl.
    destruct o as [t|]; simpl.
    + apply normalizedTool_Some in Ho as (n & Hn & Hname & _).
      rewrite Hn. simpl. rewrite Hname. f_equal. by apply IH.
    + apply normalizedTool_None in Ho as [_ Hn]. rewrite Hn. simpl. by apply IH.
Qed.

(** C10. Duplicate names collapse in the lookup map only. After a
    normalisation that completes, the tools list, the name list and the
    numbered candidate list of the prompt each hold one entry per record
    with a valid name, in catalog order, entry [i] of the numbered list
    being "i+1. name"; the map never has more entries than the tools list,
    and has strictly fewer as soon as two records share a lower-cased
    trimmed name. *)
Theorem C10_duplicates_stay_in_lists rawTools cat :
  normalizeTools rawTools = Ok cat →
  let named := List.filter (λ r, bool_decide (is_Some (nameOf r))) rawTools in
  length (tools cat) = length named ∧
  map Tool.name (tools cat) = toolNames cat ∧
  toolNames cat = omap (λ r, Str.trim <$> nameOf r) rawTools ∧
  length (numberedNames (toolNames cat)) = length named ∧
  (∀ i name, toolNames cat !! i = Some name →
             numberedNames (toolNames cat) !! i
             = Some (pretty (i + 1)%nat ++ ". " ++ name)) ∧
  (size (toolMap cat) <= length (tools cat))%nat ∧
  (∀ l1 a l2 b l3 k,
      rawTools = (l1 ++ a :: l2 ++ b :: l3)%list →
      keyOf a = Some k → keyOf b = Some k →
      (size (toolMap cat) < length (tools cat))%nat).
Proof.
  intros Hn named. apply normalizeTools_inv in Hn as (ts & Hts & ->).
  rewrite tools_foldl, toolNames_foldl. simpl.
  pose proof (keptTools_length _ _ Hts) as Hlen. fold named in Hlen.
  pose proof (keptTools_names _ _ Hts) as Hnames.
  repeat split.
  - exact Hlen.
  - exact Hnames.
  - unfold numberedNames. by rewrite length_imap, length_map.
  - intros i name Hi. unfold numberedNames. rewrite list_lookup_imap, Hi. reflexivity.
  - apply (toolMap_foldl_size emptyCatalog ts).
  - intros l1 a l2 b l3 k -> Hka Hkb.
    apply keptTools_split in Hts
      as (ts1 & oa & ts2 & ob & ts3 & H1 & Ha & H2 & Hb & H3 & ->).
    destruct (keyOf_normalizedTool _ _ _ Hka Ha) as (ta & -> & Hta).
    destruct (keyOf_normalizedTool _ _ _ Hkb Hb) as (tb & -> & Htb).
    simpl. apply (toolMap_foldl_size_dup emptyCatalog). congruence.
Qed.

Lemma C10_witness :
  length (tools Fixture.catalog) = 3%nat ∧
  map Tool.name (tools Fixture.catalog) = toolNames Fixture.catalog ∧
  toolNames Fixture.catalog = ["EmailCheck Pro"; "Acme Tool"; "ACME TOOL"] ∧
  numberedNames (toolNames Fixture.catalog) !! 2%nat = Some "3. ACME TOOL" ∧
  (size (toolMap Fixture.catalog) < length (tools Fixture.catalog))%nat.
Proof.
  destruct (C10_duplicates_stay_in_lists Fixture.rawTools Fixture.catalog
              ltac:(vm_compute; reflexivity))
    as (Hlen & Hnames & Hkept & _ & Hnum & _ & Hdup).
  split; [|split; [|split; [|split]]].
  - exact Hlen.
  - exact Hnames.
  - exact Hkept.
  - apply (Hnum 2%nat "ACME TOOL"). reflexivity.
  - apply (Hdup [Fixture.emailCheck] Fixture.acme [Fixture.blank] Fixture.acmeAgain []
                "acme tool"); reflexivity.
Defined.

Example duplicate_name_listed_twice :
  numberedNames (toolNames Fixture.catalog)
  = ["1. EmailCheck Pro"; "2. Acme Tool"; "3. ACME TOOL"] ∧
  length (tools Fixture.catalog) = 3%nat ∧ size (toolMap Fixture.catalog) = 2%nat.
Proof. vm_compute. repeat split. Qed.

(** ** Lookup keys *)

Lemma toolMap_foldl_elem acc ts t :
  t ∈ ts → is_Some (toolMap (foldl record acc ts) !! toolKey t).
Proof.
  intros Hin. apply list_elem_of_split in Hin as (l1 & l2 & ->).
  rewrite foldl_app. simpl. apply toolMap_foldl_keeps. simpl.
  rewrite lookup_insert_eq. eauto.
Qed.

(** Every record with a valid name yields a kept tool under its key. *)
Lemma keptTools_named rawTools ts raw n :
  keptTools rawTools = Ok ts → raw ∈ rawTools → nameOf raw = Some n →
  ∃ t, t ∈ ts ∧ toolKey t = Str.toLowerCase (Str.trim n).
Proof.
  intros Hts Hin Hn. apply list_elem_of_split in Hin as (l1 & l2 & ->).
  apply keptTools_app_inv in Hts as (ts1 & r & H1 & H & ->).
  apply keptTools_cons_inv in H as (o & ts2 & Ho & H2 & ->).
  assert (Hk : keyOf raw = Some (Str.toLowerCase (Str.trim n)))
    by (unfold keyOf; by rewrite Hn).
  destruct (keyOf_normalizedTool _ _ _ Hk Ho) as (t & -> & Ht).
  exists t. split; [|exact Ht].
  apply elem_of_app. right. simpl. by left.
Qed.

(** Every entry of the lookup map is a kept tool, filed under its
    lower-cased name, and that name is trimmed and not empty. *)
Lemma toolMap_entry rawTools cat k t :
  normalizeTools rawTools = Ok cat → toolMap cat !! k = Some t →
  t ∈ tools cat ∧ k = Str.toLowerCase (Tool.name t) ∧
  Str.trim (Tool.name t) = Tool.name t ∧ Tool.name t ≠ EmptyString.
Proof.
  intros Hn Hk. apply normalizeTools_inv in Hn as (ts & Hts & ->).
  rewrite tools_foldl. simpl.
  apply toolMap_foldl_lookup in Hk as [[Hin Hkey]|Hk];
    [|unfold emptyCatalog in Hk; simpl in Hk; by rewrite lookup_empty in Hk].
  destruct (keptTools_elem _ _ _ Hts Hin) as (r & _ & Hr).
  apply normalizedTool_Some in Hr as (n & _ & Hname & Hne & _).
  repeat split; [exact Hin | by rewrite <- Hkey | | by rewrite Hname].
  rewrite Hname. apply StrFacts.trim_idem.
Qed.

Lemma tools_entry rawTools cat t :
  normalizeTools rawTools = Ok cat → t ∈ tools cat →
  Str.trim (Tool.name t) = Tool.name t ∧ Tool.name t ≠ EmptyString.
Proof.
  intros Hn Hin. apply normalizeTools_inv in Hn as (ts & Hts & ->).
  rewrite tools_foldl in Hin. simpl in Hin.
  destruct (keptTools_elem _ _ _ Hts Hin) as (r & _ & Hr).
  apply normalizedTool_Some in Hr as (n & _ & Hname & Hne & _).
  rewrite Hname. split; [apply StrFacts.trim_idem | exact Hne].
Qed.

(** C2, as it fails. The catalog holds one tool, spelled "  Acme Tool " and
    filed under "acme tool". The model returns that very spelling, then the
    name with one leading blank: both equal the catalog name after trimming
    and lower-casing, both are dropped, and the request ends in the
    no-match message. *)
Lemma C2_counterexample :
  ∃ cat,
    normalizeTools [Fixture.acme] = Ok cat ∧
    nameOf Fixture.acme = Some "  Acme Tool " ∧
    is_Some (toolMap cat !! "acme tool") ∧
    Str.toLowerCase (Str.trim " Acme Tool") = Str.toLowerCase (Str.trim "  Acme Tool ") ∧
    matchRecommendation (toolMap cat) (Rec.mk "  Acme Tool " (9 # 10) "same spelling") = None ∧
    matchRecommendation (toolMap cat) (Rec.mk " Acme Tool" (9 # 10) "leading blank") = None ∧
    POST (Fixture.world (JArray [Fixture.acme])
            (Fixture.answer [Fixture.rec "  Acme Tool " (9 # 10);
                             Fixture.rec " Acme Tool" (9 # 10)]))
         Fixture.request
    = Ok (mkResponse 200 (MessageBody noMatchMessage)).
Proof.
  eexists. split; [vm_compute; reflexivity|].
  repeat split; try (vm_compute; reflexivity).
  vm_compute. eauto.
Qed.

(** C2, amended. The lookup is insensitive to case, and to surrounding
    whitespace on the catalog side only. A record with a valid name [n] is
    filed under the lower-cased trimmed [n], so the entry is retrievable by
    that key; a returned tool_name is looked up after lower-casing alone,
    so a name other than "undefined" that differs from the trimmed catalog
    name only in letter case matches the entry; and a returned name that
    matches anything carries no leading or trailing whitespace. *)
Theorem C2_lookup_lowercases_only rawTools cat raw n :
  normalizeTools rawTools = Ok cat → raw ∈ rawTools → nameOf raw = Some n →
  ∃ t,
    toolMap cat !! Str.toLowerCase (Str.trim n) = Some t ∧
    Str.toLowerCase (Tool.name t) = Str.toLowerCase (Str.trim n) ∧
    (∀ rec, Rec.tool_name rec ≠ "undefined" →
            Str.toLowerCase (Rec.tool_name rec) = Str.toLowerCase (Str.trim n) →
            matchRecommendation (toolMap cat) rec
            = Some (Recommendation.mk t (Rec.relevance_score rec) (Rec.reasoning rec))) ∧
    (∀ rec r, matchRecommendation (toolMap cat) rec = Some r →
              Str.trim (Rec.tool_name rec) = Rec.tool_name rec).
Proof.
  intros Hn Hin Hname.
  pose proof Hn as Hn'. apply normalizeTools_inv in Hn' as (ts & Hts & Hcat).
  destruct (keptTools_named _ _ _ _ Hts Hin Hname) as (u & Hu & Hku).
  destruct (toolMap_foldl_elem emptyCatalog ts u Hu) as [t Ht].
  rewrite <- Hcat, Hku in Ht. exists t. split; [exact Ht|].
  destruct (toolMap_entry _ _ _ _ Hn Ht) as (_ & Hk & _ & _).
  split; [by rewrite <- Hk|]. split.
  - intros rec Hundef Hlow. unfold matchRecommendation.
    destruct (Str.isEmpty (Rec.tool_name rec)) eqn:E1.
    { destruct (Rec.tool_name rec); [|discriminate].
      assert (Hname' : nameOf raw = Some n) by exact Hname.
      unfold nameOf in Hname'. destruct (rawName raw) as [v|]; [|discriminate].
      unfold validName in Hname'. destruct v as [[]|]; try discriminate.
      destruct (JS.truthy _ && _) eqn:E; [|discriminate].
      injection Hname' as ->. apply andb_true_iff in E as [_ E].
      simpl in Hlow. destruct (Str.trim n); discriminate. }
    destruct (String.eqb (Rec.tool_name rec) "undefined") eqn:E2.
    { apply String.eqb_eq in E2. contradiction. }
    simpl. by rewrite Hlow, Ht.
  - intros rec r Hm. unfold matchRecommendation in Hm.
    destruct (_ || _); [discriminate|].
    destruct (toolMap cat !! Str.toLowerCase (Rec.tool_name rec))
      as [t'|] eqn:Ht'; [|discriminate].
    destruct (toolMap_entry _ _ _ _ Hn Ht') as (_ & Hk' & Htrim & _).
    apply (StrFacts.trim_of_lower_trimmed _ (Tool.name t')). by rewrite Htrim.
Qed.

Lemma C2_witness :
  ∃ t,
    toolMap Fixture.catalog !! "acme tool" = Some t ∧
    Str.toLowerCase (Tool.name t) = "acme tool" ∧
    (∀ rec, Rec.tool_name rec ≠ "undefined" →
            Str.toLowerCase (Rec.tool_name rec) = "acme tool" →
            matchRecommendation (toolMap Fixture.catalog) rec
            = Some (Recommendation.mk t (Rec.relevance_score rec) (Rec.reasoning rec))) ∧
    (∀ rec r, matchRecommendation (toolMap Fixture.catalog) rec = Some r →
              Str.trim (Rec.tool_name rec) = Rec.tool_name rec).
Proof.
  apply (C2_lookup_lowercases_only Fixture.rawTools Fixture.catalog
           Fixture.acme "  Acme Tool ").
  - vm_compute. reflexivity.
  - unfold Fixture.rawTools. apply elem_of_cons. right. apply elem_of_cons. by left.
  - vm_compute. reflexivity.
Defined.

(** ** Use cases *)

Module SplitFacts.
Import Str.

Lemma splitComma_nonempty s : splitComma s ≠ [].
Proof.
  destruct s as [|c s]; simpl; [discriminate|].
  destruct (Ascii.eqb c ","); [discriminate|].
  destruct (splitComma s); discriminate.
Qed.

(** Joining the pieces with commas gives the text back: the pieces are
    the fragments between the commas, in order. *)
Lemma join_splitComma s : join "," (splitComma s) = s.
Proof.
  unfold join. induction s as [|c s IH]; [reflexivity|].
  pose proof (splitComma_nonempty s) as Hne.
  simpl. destruct (Ascii.eqb c ",") eqn:Ec.
  - apply Ascii.eqb_eq in Ec as ->.
    destruct (splitComma s) as [|p ps]; [congruence|].
    cbn [String.concat]. cbn [String.concat] in IH. rewrite IH. reflexivity.
  - destruct (splitComma s) as [|p ps]; [congruence|].
    destruct ps; simpl in *; by rewrite <- IH.
Qed.

Lemma splitComma_no_comma s p :
  p ∈ splitComma s → ∀ c, In c (list_ascii_of_string p) → c ≠ ","%char.
Proof.
  revert p. induction s as [|c s IH]; intros p Hp d Hd; simpl in Hp.
  - apply list_elem_of_singleton in Hp as ->. destruct Hd.
  - destruct (Ascii.eqb c ",") eqn:Ec.
    + apply elem_of_cons in Hp as [->|Hp]; [destruct Hd | by apply (IH p)].
    + destruct (splitComma s) as [|q qs].
      * apply list_elem_of_singleton in Hp as ->. simpl in Hd.
        destruct Hd as [<-|[]]. intros ->. by rewrite Ascii.eqb_refl in Ec.
      * apply elem_of_cons in Hp as [->|Hp].
        -- simpl in Hd. destruct Hd as [<-|Hd].
           ++ intros ->. by rewrite Ascii.eqb_refl in Ec.
           ++ apply (IH q); [by left | exact Hd].
        -- apply (IH p); [by right | exact Hd].
Qed.

End SplitFacts.

(** Text that is not empty is split on commas and each piece trimmed. *)
Lemma useCasesOf_text s :
  s ≠ EmptyString → useCasesOf (JString s) = Ok (map Str.trim (Str.splitComma s)).
Proof. destruct s; [congruence | reflexivity]. Qed.

(** A falsy value, the empty text among them, gives no use case. *)
Lemma useCasesOf_falsy v : JS.truthy (Some v) = false → useCasesOf v = Ok [].
Proof. intros H. unfold useCasesOf. by rewrite H. Qed.

(** A truthy value that is not text has no [split] method. *)
Lemma useCasesOf_not_text v :
  JS.truthy (Some v) = true → (∀ s, v ≠ JString s) → useCasesOf v = Throw TypeError.
Proof.
  intros H Hs. unfold useCasesOf. rewrite H.
  destruct v; try reflexivity. by destruct (Hs s).
Qed.

(** C5, where the code departs from it. A record whose use-cases field is
    present but not text, here a JSON array of two strings, does not get an
    empty use_cases sequence: [split] is not a function on an array, the
    callback throws a TypeError, normalisation does not complete, and the
    exception leaves the handler. The same happens for a number and for
    [true]. *)
Theorem C5_use_cases_not_text_throws :
  let record (v : json) := JObject [("name", JString "Acme"); ("use_cases", v)] in
  let list := JArray [JString "enrichment"; JString "scoring"] in
  useCasesOf list = Throw TypeError ∧
  normalizeTools [record list] = Throw TypeError ∧
  normalizeTools [record (JNumber 7)] = Throw TypeError ∧
  normalizeTools [record (JBool true)] = Throw TypeError ∧
  POST (Fixture.world (JArray [Fixture.emailCheck; record list]) Fixture.mixed)
       Fixture.request
  = Throw TypeError.
Proof. vm_compute. repeat split. Qed.

(** ** Unnamed records *)

Lemma validName_Some v n :
  validName v = Some n → v = Some (JString n) ∧ Str.trim n ≠ EmptyString.
Proof.
  unfold validName. destruct v as [[]|]; try discriminate.
  destruct (JS.truthy _ && _) eqn:E; [|discriminate].
  intros [= ->]. apply andb_true_iff in E as [_ E].
  split; [reflexivity|]. by destruct (Str.trim n).
Qed.

Lemma or_Ok_inv a b v :
  JS.or a b = Ok v →
  (a = Ok v ∧ JS.truthy v = true) ∨ (∃ u, a = Ok u ∧ JS.truthy u = false ∧ b = Ok v).
Proof.
  unfold JS.or. destruct a as [u|]; simpl; [|discriminate].
  destruct (JS.truthy u) eqn:E.
  - intros [= <-]. by left.
  - intros H. right. eauto.
Qed.

(** The name the handler settles on is the value of one of the aliases. *)
Lemma rawName_alias rawTool v :
  rawName rawTool = Ok v →
  ∃ k, k ∈ nameAliases ∧ JS.get (Some rawTool) k = Ok v.
Proof.
  unfold rawName, nameAliases. intros H.
  apply or_Ok_inv in H as [[H _]|(? & H & _ & Hb)];
    [|exists "title"; split; [set_solver | exact Hb]].
  apply or_Ok_inv in H as [[H _]|(? & H & _ & Hb)];
    [|exists "Name"; split; [set_solver | exact Hb]].
  apply or_Ok_inv in H as [[H _]|(? & H & _ & Hb)];
    [|exists "name"; split; [set_solver | exact Hb]].
  exists "Name Of Tool". split; [set_solver | exact H].
Qed.

Lemma NoUsableName_nameOf rawTool : NoUsableName rawTool → nameOf rawTool = None.
Proof.
  intros Hno. unfold nameOf.
  destruct (rawName rawTool) as [v|] eqn:Hv; [|reflexivity].
  destruct (validName v) as [n|] eqn:Hn; [|reflexivity].
  apply validName_Some in Hn as [-> Hne].
  apply rawName_alias in Hv as (k & Hk & Hget).
  by destruct (Hne (Hno k n Hk Hget)).
Qed.

(** A record other than [null] without a usable name is skipped: the three
    collections stay as they were. *)
Lemma unnamed_record_dropped acc rawTool :
  rawTool ≠ JNull → NoUsableName rawTool → normalizeTool acc rawTool = Ok acc.
Proof.
  intros Hnull Hno. rewrite normalizeTool_record.
  rewrite (proj2 (normalizedTool_None rawTool)); [reflexivity|].
  split; [exact Hnull | by apply NoUsableName_nameOf].
Qed.

(** When normalisation completes, the list is the catalog minus the dropped
    records, and every tool of the list and of the map has a name. *)
Lemma normalizeTools_completed rawTools cat :
  normalizeTools rawTools = Ok cat →
  (length (tools cat)
   = length rawTools
     - length (List.filter (λ r, negb (bool_decide (is_Some (nameOf r)))) rawTools))%nat ∧
  Forall (λ t, Tool.name t ≠ EmptyString) (tools cat) ∧
  (∀ k t, toolMap cat !! k = Some t → Tool.name t ≠ EmptyString).
Proof.
  intros Hn. repeat split.
  - pose proof Hn as Hn'. apply normalizeTools_inv in Hn' as (ts & Hts & ->).
    rewrite tools_foldl. simpl. rewrite (keptTools_length _ _ Hts).
    clear. induction rawTools as [|r l IH]; simpl; [reflexivity|].
    pose proof (List.filter_length_le
                  (λ r, negb (bool_decide (is_Some (nameOf r)))) l).
    destruct (bool_decide _); simpl; lia.
  - apply Forall_forall. intros t Hin. by apply (tools_entry _ _ _ Hn Hin).
  - intros k t Hk. by apply (toolMap_entry _ _ _ _ Hn Hk).
Qed.

(** C8, where the code departs from it. A [null] element of the catalog is
    a raw record no alias of which yields a name, yet it is not skipped:
    reading its first alias throws a TypeError, which ends normalisation
    and leaves the handler, although the record before it is well formed. *)
Theorem C8_null_record_throws :
  NoUsableName JNull ∧
  normalizeTool emptyCatalog JNull = Throw TypeError ∧
  normalizeTools [Fixture.emailCheck; JNull] = Throw TypeError ∧
  POST (Fixture.world (JArray [Fixture.emailCheck; JNull]) Fixture.mixed)
       Fixture.request
  = Throw TypeError.
Proof.
  split; [|vm_compute; repeat split].
  intros k s _ H. discriminate.
Qed.

(** ** The scenarios of the specification *)

(** A tool named "  Acme Tool " is retrievable via key "acme tool". *)
Example acme_retrievable :
  ∃ cat t, normalizeTools [Fixture.acme] = Ok cat ∧
           toolMap cat !! "acme tool" = Some t ∧ Tool.name t = "Acme Tool".
Proof. eexists _, _. repeat split; vm_compute; reflexivity. Qed.

(** One matching recommendation comes back as one recommendation that
    references the catalog record. *)
Example scenario_email_check :
  POST (Fixture.world Fixture.document
          (Fixture.answer [Fixture.rec "EmailCheck Pro" (92 # 100)]))
       Fixture.request
  = Ok (mkResponse 200 (RecommendationsBody
         [Recommendation.mk
            (Tool.mk "EmailCheck Pro" (JString "bulk email verification") (JString "")
                     "Clay Integration" ["verify emails"; "clean lists"; "scoring"]
                     "Medium" "Varies" (JString ""))
            (92 # 100) "fits the request"])).
Proof. vm_compute. reflexivity. Qed.

(** A made-up tool name alone ends in the no-match message. *)
Example scenario_made_up_tool :
  POST (Fixture.world Fixture.document
          (Fixture.answer [Fixture.rec "Totally Made Up Tool" (9 # 10)]))
       Fixture.request
  = Ok (mkResponse 200 (MessageBody noMatchMessage)).
Proof. vm_compute. reflexivity. Qed.

(** A blank query is refused before the catalog is looked at. *)
Example scenario_blank_query w :
  hasApiKey w = true →
  POST w (Some (JObject [("query", JString "   ")]))
  = Ok (mkResponse 400 (ErrorBody "Missing or empty query.")).
Proof. intros H. unfold POST. rewrite H. reflexivity. Qed.

(** A value that violates the schema is an AI-processing failure. *)
Example scenario_schema_violation :
  POST (Fixture.world Fixture.document
          (Fixture.answer [Fixture.rec "EmailCheck Pro" (3 # 2)]))
       Fixture.request
  = Ok (mkResponse 500 (ErrorBody "AI processing failed")).
Proof. vm_compute. reflexivity. Qed.

(** * Further properties of the route *)

(** ** The shapes of a response *)

Lemma POST_Ok_cases w reqBody r :
  POST w reqBody = Ok r →
  r = mkResponse 500 (ErrorBody "OPENAI_API_KEY is missing.") ∨
  r = mkResponse 400 (ErrorBody "Missing or empty query.") ∨
  r = mkResponse 500 (ErrorBody "Failed to load tools list.") ∨
  r = mkResponse 500 (ErrorBody "No valid tools found in the data") ∨
  r = mkResponse 500 (ErrorBody "AI processing failed") ∨
  r = mkResponse 200 (MessageBody noMatchMessage) ∨
  ∃ recs, r = mkResponse 200 (RecommendationsBody recs) ∧ recs ≠ [] ∧
          hasStrongMatch recs = true.
Proof.
  unfold POST. destruct (hasApiKey w); cbn [negb]; [|intros [= <-]; auto].
  destruct reqBody as [parsed|]; cbn [bind]; [|discriminate].
  destruct (JS.get (Some parsed) "query") as [q|]; cbn [bind]; [|discriminate].
  destruct (validQuery q) as [query|]; [|intros [= <-]; auto].
  destruct (loadRawTools w) as [r'|rawTools] eqn:Hl.
  { rewrite (loadRawTools_inl _ _ Hl). intros [= <-]. auto. }
  destruct (normalizeTools rawTools) as [cat|]; cbn [bind]; [|discriminate].
  destruct (length (tools cat) =? 0)%nat; [intros [= <-]; auto 6|].
  destruct (buildPrompt _ query cat) as [prompt|];
    cbn [bind try_catch]; [|intros [= <-]; auto 6].
  destruct (callModel w prompt) as [object|];
    cbn [bind try_catch]; [|intros [= <-]; auto 6].
  intros [= <-]. unfold gate.
  destruct (validRecommendations (toolMap cat) object) as [|x l] eqn:E;
    cbn [length Nat.eqb orb]; [auto 7|].
  destruct (hasStrongMatch (x :: l)) eqn:Hs; cbn [negb]; [|auto 7].
  do 6 right. exists (x :: l). repeat split; [discriminate | exact Hs].
Qed.


(** Every response the handler returns is one of seven: five error bodies
    with status 500 or 400, the no-match message with status 200, or a
    list of recommendations with status 200, which is then never empty and
    holds a score at or above the threshold. *)
Theorem POST_response_shapes w reqBody r :
  POST w reqBody = Ok r →
  r = mkResponse 500 (ErrorBody "OPENAI_API_KEY is missing.") ∨
  r = mkResponse 400 (ErrorBody "Missing or empty query.") ∨
  r = mkResponse 500 (ErrorBody "Failed to load tools list.") ∨
  r = mkResponse 500 (ErrorBody "No valid tools found in the data") ∨
  r = mkResponse 500 (ErrorBody "AI processing failed") ∨
  r = mkResponse 200 (MessageBody noMatchMessage) ∨
  ∃ recs, r = mkResponse 200 (RecommendationsBody recs) ∧ recs ≠ [] ∧
          hasStrongMatch recs = true.
Proof. exact (POST_Ok_cases w reqBody r). Qed.

Lemma POST_response_shapes_witness :
  mkResponse 200 (MessageBody noMatchMessage)
  = mkResponse 500 (ErrorBody "OPENAI_API_KEY is missing.") ∨
  mkResponse 200 (MessageBody noMatchMessage)
  = mkResponse 400 (ErrorBody "Missing or empty query.") ∨
  mkResponse 200 (MessageBody noMatchMessage)
  = mkResponse 500 (ErrorBody "Failed to load tools list.") ∨
  mkResponse 200 (MessageBody noMatchMessage)
  = mkResponse 500 (ErrorBody "No valid tools found in the data") ∨
  mkResponse 200 (MessageBody noMatchMessage)
  = mkResponse 500 (ErrorBody "AI processing failed") ∨
  mkResponse 200 (MessageBody noMatchMessage)
  = mkResponse 200 (MessageBody noMatchMessage) ∨
  ∃ recs, mkResponse 200 (MessageBody noMatchMessage)
          = mkResponse 200 (RecommendationsBody recs) ∧ recs ≠ [] ∧
          hasStrongMatch recs = true.
Proof.
  apply (POST_response_shapes (Fixture.world Fixture.document Fixture.weak)
                              Fixture.request).
  vm_compute. reflexivity.
Defined.

(** ** The top recommendation *)

Lemma desc_trans a b c : desc a b → desc b c → desc a c.
Proof. unfold desc. intros. lra. Qed.

Lemma Sorted_desc_head x l :
  Sorted desc (x :: l) → Forall (λ r, (score r <= score x)%Q) l.
Proof.
  intros Hs. apply Sorted_StronglySorted in Hs; [|intros a b c; apply desc_trans].
  apply StronglySorted_inv in Hs as [_ Hall].
  rewrite List.Forall_forall in Hall. apply Forall_forall. intros r Hr.
  apply Hall. by apply list_elem_of_In.
Qed.

(** A returned list starts with a recommendation that clears the
    threshold, and no later one scores higher than it. *)
Theorem top_recommendation_clears_threshold w reqBody st recs :
  POST w reqBody = Ok (mkResponse st (RecommendationsBody recs)) →
  ∃ top rest, recs = top :: rest ∧
              (MIN_RELEVANCE <= Recommendation.relevance_score top)%Q ∧
              Forall (λ r, (Recommendation.relevance_score r
                            <= Recommendation.relevance_score top)%Q) rest.
Proof.
  intros H. apply POST_recommendations in H as (cat & object & _ & -> & Hs & _).
  pose proof (sort_sorted (survivors (toolMap cat) object)) as Hsorted.
  fold (validRecommendations (toolMap cat) object) in Hsorted.
  destruct (validRecommendations (toolMap cat) object) as [|top rest]; [discriminate|].
  exists top, rest. pose proof (Sorted_desc_head _ _ Hsorted) as Hmax.
  repeat split; [|exact Hmax].
  apply hasStrongMatch_Exists in Hs. apply List.Exists_exists in Hs as (r & Hin & Hr).
  destruct Hin as [<-|Hin]; [exact Hr|].
  rewrite Forall_forall in Hmax. apply list_elem_of_In in Hin.
  specialize (Hmax r Hin). unfold score in *. lra.
Qed.

Lemma top_recommendation_clears_threshold_witness :
  ∃ top rest,
    [Recommendation.mk (Fixture.tool "emailcheck pro") (92 # 100) "fits the request";
     Recommendation.mk (Fixture.tool "acme tool") (1 # 10) "fits the request"]
    = top :: rest ∧
    (MIN_RELEVANCE <= Recommendation.relevance_score top)%Q ∧
    Forall (λ r, (Recommendation.relevance_score r
                  <= Recommendation.relevance_score top)%Q) rest.
Proof.
  apply (top_recommendation_clears_threshold
           (Fixture.world Fixture.document Fixture.mixed) Fixture.request 200).
  vm_compute. reflexivity.
Defined.

(** ** The schema *)

Lemma parseRec_range v rec :
  parseRec v = Some rec →
  (0 <= Rec.relevance_score rec)%Q ∧ (Rec.relevance_score rec <= 1)%Q.
Proof.
  unfold parseRec. destruct v as [| | | | |props]; try discriminate.
  destruct (JS.ownProp props "tool_name") as [[| | |n| |]|]; try discriminate.
  destruct (JS.ownProp props "relevance_score") as [[| |q| | |]|]; try discriminate.
  destruct (JS.ownProp props "reasoning") as [[| | |r| |]|]; try discriminate.
  destruct (Qle_bool 0 q && Qle_bool q 1) eqn:E; [|discriminate].
  intros [= <-]. simpl. apply andb_true_iff in E as [E1 E2].
  split; by apply Qle_bool_iff.
Qed.

Lemma parseRecs_spec l recs :
  parseRecs l = Some recs →
  length recs = length l ∧
  Forall (λ rec, (0 <= Rec.relevance_score rec)%Q ∧ (Rec.relevance_score rec <= 1)%Q) recs.
Proof.
  revert recs. induction l as [|v l IH]; intros recs; simpl.
  - intros [= <-]. split; [reflexivity | constructor].
  - destruct (parseRec v) as [r|] eqn:Er; [|discriminate].
    destruct (parseRecs l) as [rs|]; [|discriminate].
    intros [= <-]. destruct (IH rs eq_refl) as [Hlen Hall].
    split; [simpl; by rewrite Hlen|].
    constructor; [by apply (parseRec_range v) | exact Hall].
Qed.

(** What the schema lets through: an object whose "recommendations" is an
    array, parsed element for element, every score within [0, 1]. *)
Theorem RecommendationSchema_accepts v recs :
  RecommendationSchema v = Some recs →
  ∃ props items,
    v = JObject props ∧ JS.ownProp props "recommendations" = Some (JArray items) ∧
    length recs = length items ∧
    Forall (λ rec, (0 <= Rec.relevance_score rec)%Q ∧ (Rec.relevance_score rec <= 1)%Q)
           recs.
Proof.
  unfold RecommendationSchema. destruct v as [| | | | |props]; try discriminate.
  destruct (JS.ownProp props "recommendations") as [[| | | |items|]|] eqn:E;
    try discriminate.
  intros H. apply parseRecs_spec in H as [Hlen Hall].
  exists props, items. repeat split; assumption.
Qed.

Lemma RecommendationSchema_accepts_witness :
  ∃ props items,
    Fixture.mixed = JObject props ∧
    JS.ownProp props "recommendations" = Some (JArray items) ∧
    length (Fixture.object Fixture.mixed) = length items ∧
    Forall (λ rec, (0 <= Rec.relevance_score rec)%Q ∧ (Rec.relevance_score rec <= 1)%Q)
           (Fixture.object Fixture.mixed).
Proof.
  apply (RecommendationSchema_accepts Fixture.mixed (Fixture.object Fixture.mixed)).
  vm_compute. reflexivity.
Defined.

Lemma callModel_Ok w prompt object :
  callModel w prompt = Ok object →
  ∃ v, generateObject w prompt = Some v ∧ RecommendationSchema v = Some object.
Proof.
  unfold callModel. destruct (generateObject w prompt) as [v|]; [|discriminate].
  destruct (RecommendationSchema v) as [recs|] eqn:E; [|discriminate].
  intros [= <-]. eauto.
Qed.

Lemma returned_from_catalog w reqBody st recs :
  POST w reqBody = Ok (mkResponse st (RecommendationsBody recs)) →
  ∃ cat object, Reaches w reqBody cat object ∧ Forall (FromCatalog cat object) recs.
Proof.
  intros H. apply POST_recommendations in H as (cat & object & Hr & -> & _ & _).
  exists cat, object. split; [exact Hr|].
  apply Forall_forall. intros r Hin. unfold validRecommendations in Hin.
  rewrite <- (sort_perm byScoreDesc _) in Hin. by apply survivors_elem.
Qed.

(** Every returned recommendation carries a score within [0, 1]: the score
    of an element of the model's answer, which the schema has bounded. *)
Theorem returned_scores_in_range w reqBody st recs :
  POST w reqBody = Ok (mkResponse st (RecommendationsBody recs)) →
  Forall (λ r, (0 <= Recommendation.relevance_score r)%Q ∧
               (Recommendation.relevance_score r <= 1)%Q) recs.
Proof.
  intros H.
  destruct (returned_from_catalog w reqBody st recs H)
    as (cat & object & Hreach & Hall).
  destruct Hreach as (query & rawTools & prompt & _ & _ & _ & _ & _ & Hm).
  apply callModel_Ok in Hm as (v & _ & Hv).
  apply RecommendationSchema_accepts in Hv as (_ & _ & _ & _ & _ & Hrange).
  apply Forall_forall. intros r Hr. rewrite Forall_forall in Hall.
  destruct (Hall r Hr) as (rec & Hin & _ & _ & _ & Hs & _).
  rewrite Forall_forall in Hrange. rewrite Hs. by apply Hrange.
Qed.

Lemma returned_scores_in_range_witness :
  Forall (λ r, (0 <= Recommendation.relevance_score r)%Q ∧
               (Recommendation.relevance_score r <= 1)%Q)
    [Recommendation.mk (Fixture.tool "emailcheck pro") (92 # 100) "fits the request";
     Recommendation.mk (Fixture.tool "acme tool") (1 # 10) "fits the request"].
Proof.
  apply (returned_scores_in_range
           (Fixture.world Fixture.document Fixture.mixed) Fixture.request 200).
  vm_compute. reflexivity.
Defined.

(** ** Checks before the network *)


(** The credential and query checks never look at the catalog or the
    model: a request refused for a missing key or a bad query is refused
    alike whatever [fetch] and [generateObject] would answer. *)
Theorem checks_ignore_collaborators w w' reqBody r :
  OPENAI_API_KEY w = OPENAI_API_KEY w' →
  r = keyMissing ∨ r = invalidQuery →
  POST w reqBody = Ok r → POST w' reqBody = Ok r.
Proof.
  intros Hkey Hr. unfold POST, hasApiKey. rewrite <- Hkey.
  destruct (match OPENAI_API_KEY w with Some k => negb (Str.isEmpty k) | None => false end);
    cbn [negb]; [|auto].
  destruct reqBody as [parsed|]; cbn [bind]; [|discriminate].
  destruct (JS.get (Some parsed) "query") as [q|]; cbn [bind]; [|discriminate].
  destruct (validQuery q) as [query|]; [|auto].
  intros H. exfalso. revert H.
  destruct (loadRawTools w) as [r'|rawTools] eqn:Hl.
  { rewrite (loadRawTools_inl _ _ Hl). intros [= <-]. destruct Hr; discriminate. }
  destruct (normalizeTools rawTools) as [cat|]; cbn [bind]; [|discriminate].
  destruct (length (tools cat) =? 0)%nat;
    [intros [= <-]; destruct Hr; discriminate|].
  destruct (buildPrompt _ query cat) as [prompt|]; cbn [bind try_catch];
    [|intros [= <-]; destruct Hr; discriminate].
  destruct (callModel w prompt) as [object|]; cbn [bind try_catch];
    [|intros [= <-]; destruct Hr; discriminate].
  unfold gate. destruct (_ || _); intros [= <-]; destruct Hr; discriminate.
Qed.

Lemma checks_ignore_collaborators_witness :
  POST (Fixture.world JNull JNull) (queryBody "   ") = Ok invalidQuery.
Proof.
  apply (checks_ignore_collaborators
           (Fixture.world Fixture.document Fixture.mixed) (Fixture.world JNull JNull)
           (queryBody "   ") invalidQuery).
  - reflexivity.
  - right. reflexivity.
  - vm_compute. reflexivity.
Defined.

(** ** Exceptions that leave the handler *)

Lemma get_total r k : r ≠ JNull → ∃ v, JS.get (Some r) k = Ok v.
Proof. destruct r; simpl; eauto. congruence. Qed.

Lemma or_total a b :
  (∃ v, a = Ok v) → (∃ v, b = Ok v) → ∃ v, JS.or a b = Ok v.
Proof.
  intros [u ->] [v ->]. unfold JS.or. simpl. destruct (JS.truthy u); eauto.
Qed.

Lemma orEmpty_total a : (∃ v, a = Ok v) → ∃ x, orEmpty a = Ok x.
Proof.
  intros [u ->]. unfold orEmpty, JS.or. simpl.
  destruct (JS.truthy u); simpl; [destruct u|]; eauto.
Qed.

Lemma rawName_total r : r ≠ JNull → ∃ v, rawName r = Ok v.
Proof. intros H. unfold rawName. repeat apply or_total; by apply get_total. Qed.

Lemma rawUseCases_total r : r ≠ JNull → ∃ v, rawUseCases r = Ok v.
Proof.
  intros H. unfold rawUseCases. apply orEmpty_total.
  repeat apply or_total; by apply get_total.
Qed.

Lemma useCasesOf_outcome v :
  (∃ l, useCasesOf v = Ok l) ↔ (JS.truthy (Some v) = true → ∃ s, v = JString s).
Proof.
  unfold useCasesOf. destruct (JS.truthy (Some v)) eqn:E.
  - split.
    + intros [l Hl] _. destruct v; try discriminate. eauto.
    + intros H. destruct (H eq_refl) as [s ->]. eauto.
  - split; [intros _ ?; discriminate | eauto].
Qed.

(** The callback, for a record that is not [null]: it depends on the name
    and on the use-cases value alone whether it throws. *)
Lemma normalizedTool_nonnull r :
  r ≠ JNull →
  ∃ gtm, rawUseCases r = Ok gtm ∧
    match nameOf r with
    | None => normalizedTool r = Ok None
    | Some n =>
        match useCasesOf gtm with
        | Ok u => ∃ t, normalizedTool r = Ok (Some t) ∧ Tool.use_cases t = u
        | Throw e => normalizedTool r = Throw e
        end
    end.
Proof.
  intros Hn. destruct (rawUseCases_total r Hn) as [gtm Hg]. exists gtm.
  split; [exact Hg|].
  destruct (rawName_total r Hn) as [name Hname].
  unfold normalizedTool, normalizeTool, nameOf. rewrite Hname. cbn [bind].
  repeat match goal with
         | |- context [bind (orEmpty ?a) _] =>
             let H := fresh in
             assert (H : ∃ x, orEmpty a = Ok x)
               by (apply orEmpty_total; repeat apply or_total; by apply get_total);
             first [ change (orEmpty a) with (rawUseCases r); rewrite Hg
                   | let x := fresh "x" in destruct H as [x ->] ];
             cbn [bind]
         end.
  destruct (validName name) as [n|]; [|reflexivity].
  destruct (useCasesOf gtm) as [u|e]; cbn [bind]; [|reflexivity].
  eexists. split; reflexivity.
Qed.

Lemma normalizedTool_outcome r :
  Processable r ↔ ∃ o, normalizedTool r = Ok o.
Proof.
  split.
  - intros [Hn Huse]. destruct (normalizedTool_nonnull r Hn) as (gtm & Hg & H).
    destruct (nameOf r) as [n|]; [|eauto].
    destruct (proj2 (useCasesOf_outcome gtm) (Huse ltac:(eauto) gtm Hg)) as [l Hl].
    rewrite Hl in H. destruct H as (t & Ht & _). eauto.
  - intros [o Ho]. assert (Hn : r ≠ JNull) by (intros ->; discriminate).
    split; [exact Hn|]. intros [n Hname] v Hv.
    destruct (normalizedTool_nonnull r Hn) as (gtm & Hg & H).
    rewrite Hname in H. assert (v = gtm) as -> by congruence.
    apply useCasesOf_outcome. destruct (useCasesOf gtm) as [u|e]; [eauto|].
    congruence.
Qed.

Lemma normalizedTool_Throw r e : normalizedTool r = Throw e → e = TypeError.
Proof.
  assert (r = JNull ∨ r ≠ JNull) as [->|Hn]
    by (destruct r; [by left|right; discriminate..]).
  { by intros [= <-]. }
  destruct (normalizedTool_nonnull r Hn) as (gtm & Hg & H).
  destruct (nameOf r); [|congruence].
  destruct (useCasesOf gtm) as [u|e2] eqn:Eu.
  - destruct H as (t & -> & _). discriminate.
  - rewrite H. intros [= <-]. unfold useCasesOf in Eu.
    destruct (JS.truthy (Some gtm)); [|discriminate].
    destruct gtm; congruence.
Qed.

Lemma keptTools_outcome rawTools :
  match keptTools rawTools with
  | Ok _ => Forall Processable rawTools
  | Throw e => e = TypeError ∧ Exists (λ r, ¬ Processable r) rawTools
  end.
Proof.
  induction rawTools as [|r rest IH]; simpl; [constructor|].
  destruct (normalizedTool r) as [o|e] eqn:Er; simpl.
  - assert (Hp : Processable r) by (apply normalizedTool_outcome; eauto).
    destruct (keptTools rest) as [ts|e]; simpl.
    + by constructor.
    + destruct IH as [-> Hex]. split; [reflexivity | by apply Exists_cons_tl].
  - split; [by apply (normalizedTool_Throw r)|].
    apply Exists_cons_hd. intros Hp. apply normalizedTool_outcome in Hp as [o Ho].
    congruence.
Qed.

(** Normalisation completes exactly on the catalogs all of whose records
    are processable; otherwise it throws a TypeError. *)
Theorem normalizeTools_completes_iff rawTools :
  (Forall Processable rawTools ↔ ∃ cat, normalizeTools rawTools = Ok cat) ∧
  (∀ e, normalizeTools rawTools = Throw e → e = TypeError).
Proof.
  unfold normalizeTools. rewrite normalizeTools_keptTools.
  pose proof (keptTools_outcome rawTools) as H.
  destruct (keptTools rawTools) as [ts|e]; simpl.
  - split; [split; eauto | discriminate].
  - destruct H as [-> Hex]. split; [|by intros e [= <-]].
    split; [|intros [cat ?]; discriminate].
    intros Hall. exfalso. apply List.Exists_exists in Hex as (r & Hin & Hr).
    rewrite List.Forall_forall in Hall. by apply Hr, Hall.
Qed.

(** An exception leaves the handler in three cases only: the body is not
    JSON, the body is [null], or the catalog holds a record the callback
    cannot process. With the key missing nothing is thrown at all. *)
Theorem POST_throws_only w reqBody e :
  POST w reqBody = Throw e →
  hasApiKey w = true ∧
  ((reqBody = None ∧ e = SyntaxError) ∨
   (reqBody = Some JNull ∧ e = TypeError) ∨
   (e = TypeError ∧ ∃ rawTools, loadRawTools w = inr rawTools ∧
                                Exists (λ r, ¬ Processable r) rawTools)).
Proof.
  unfold POST. destruct (hasApiKey w); cbn [negb]; [|discriminate].
  intros H. split; [reflexivity|]. revert H.
  destruct reqBody as [parsed|]; cbn [bind]; [|intros [= <-]; auto].
  destruct (JS.get (Some parsed) "query") as [q|] eqn:Hq; cbn [bind].
  2:{ intros [= <-]. right. left. destruct parsed; try discriminate.
      injection Hq as <-. auto. }
  destruct (validQuery q) as [query|]; [|discriminate].
  destruct (loadRawTools w) as [r'|rawTools] eqn:Hl; [discriminate|].
  pose proof (keptTools_outcome rawTools) as Hk.
  unfold normalizeTools. rewrite normalizeTools_keptTools.
  destruct (keptTools rawTools) as [ts|e']; cbn [bind].
  - destruct (length _ =? 0)%nat; [discriminate|].
    destruct (buildPrompt _ _ _); cbn [bind try_catch]; [|discriminate].
    destruct (callModel _ _); cbn [bind try_catch]; discriminate.
  - destruct Hk as [-> Hex]. intros [= <-]. right. right. eauto.
Qed.

Lemma POST_throws_only_witness :
  hasApiKey (Fixture.world (JArray [Fixture.emailCheck; JNull]) Fixture.mixed) = true ∧
  ((Fixture.request = None ∧ TypeError = SyntaxError) ∨
   (Fixture.request = Some JNull ∧ TypeError = TypeError) ∨
   (TypeError = TypeError ∧
    ∃ rawTools,
      loadRawTools (Fixture.world (JArray [Fixture.emailCheck; JNull]) Fixture.mixed)
      = inr rawTools ∧
      Exists (λ r, ¬ Processable r) rawTools)).
Proof.
  apply (POST_throws_only
           (Fixture.world (JArray [Fixture.emailCheck; JNull]) Fixture.mixed)
           Fixture.request TypeError).
  vm_compute. reflexivity.
Defined.

(** ** The remaining error responses *)

Lemma keptTools_all_dropped rawTools :
  Forall (λ r, r ≠ JNull ∧ nameOf r = None) rawTools → keptTools rawTools = Ok [].
Proof.
  induction 1 as [|r rest Hr _ IH]; simpl; [reflexivity|].
  rewrite (proj2 (normalizedTool_None r) Hr). simpl. by rewrite IH.
Qed.

(** A catalog none of whose records has a valid name is reported as such,
    with status 500, and the model is not asked. *)
Theorem no_valid_tools_reported w reqBody query rawTools :
  AcceptsQuery w reqBody query →
  loadRawTools w = inr rawTools →
  Forall (λ r, r ≠ JNull ∧ nameOf r = None) rawTools →
  POST w reqBody = Ok (mkResponse 500 (ErrorBody "No valid tools found in the data")).
Proof.
  intros (Hkey & parsed & q & -> & Hq & Hv) Hl Hall.
  unfold POST. rewrite Hkey. cbn [negb bind]. rewrite Hq. cbn [bind].
  rewrite Hv, Hl. unfold normalizeTools.
  rewrite normalizeTools_keptTools, (keptTools_all_dropped _ Hall). reflexivity.
Qed.

Lemma no_valid_tools_reported_witness :
  POST (Fixture.world (JArray [Fixture.blank; JString "Acme"; JObject []]) Fixture.mixed)
       Fixture.request
  = Ok (mkResponse 500 (ErrorBody "No valid tools found in the data")).
Proof.
  apply (no_valid_tools_reported _ _ " verify email addresses "
           [Fixture.blank; JString "Acme"; JObject []]).
  - unfold AcceptsQuery. split; [reflexivity|]. eexists _, _. repeat split; reflexivity.
  - reflexivity.
  - repeat constructor; discriminate.
Defined.

(** When the model call fails, or what it generates violates the schema,
    the handler answers "AI processing failed" with status 500: no partial
    list, no exception. The same answer is given when the prompt cannot be
    built. *)
Theorem model_failure_reported w reqBody query rawTools cat :
  AcceptsQuery w reqBody query →
  loadRawTools w = inr rawTools →
  normalizeTools rawTools = Ok cat →
  tools cat ≠ [] →
  (∀ prompt, buildPrompt (numberToString w) query cat = Ok prompt →
             match generateObject w prompt with
             | Some v => RecommendationSchema v = None
             | None => True
             end) →
  POST w reqBody = Ok (mkResponse 500 (ErrorBody "AI processing failed")).
Proof.
  intros (Hkey & parsed & q & -> & Hq & Hv) Hl Hn Hne Hfail.
  unfold POST. rewrite Hkey. cbn [negb bind]. rewrite Hq. cbn [bind].
  rewrite Hv, Hl, Hn. cbn [bind].
  destruct (tools cat) eqn:Et; [congruence|]. cbn [length Nat.eqb].
  destruct (buildPrompt _ query cat) as [prompt|] eqn:Hp; cbn [bind try_catch];
    [|reflexivity].
  specialize (Hfail prompt eq_refl). unfold callModel.
  destruct (generateObject w prompt) as [v|]; [|reflexivity].
  by rewrite Hfail.
Qed.

Lemma model_failure_reported_witness :
  POST (Fixture.world Fixture.document
          (Fixture.answer [Fixture.rec "EmailCheck Pro" (3 # 2)]))
       Fixture.request
  = Ok (mkResponse 500 (ErrorBody "AI processing failed")).
Proof.
  apply (model_failure_reported _ _ " verify email addresses "
           Fixture.rawTools Fixture.catalog).
  - unfold AcceptsQuery. split; [reflexivity|]. eexists _, _. repeat split; reflexivity.
  - reflexivity.
  - vm_compute. reflexivity.
  - by vm_compute.
  - intros prompt _. vm_compute. reflexivity.
Defined.

(** ** The query *)

Lemma validQuery_string q :
  validQuery (Some (JString q)) = if Str.isEmpty (Str.trim q) then None else Some q.
Proof. destruct q; reflexivity. Qed.

Lemma validQuery_trim q q' :
  Str.trim q = Str.trim q' →
  match validQuery (Some (JString q)), validQuery (Some (JString q')) with
  | Some a, Some b => a = q ∧ b = q'
  | None, None => True
  | _, _ => False
  end.
Proof.
  intros H. rewrite !validQuery_string, <- H.
  destruct (Str.isEmpty (Str.trim q)); [exact I | by split].
Qed.

(** Whitespace around the query is of no consequence: two queries with the
    same trimmed text get the same outcome, response or exception. *)
Theorem query_whitespace_ignored w q q' :
  Str.trim q = Str.trim q' → POST w (queryBody q) = POST w (queryBody q').
Proof.
  intros H. unfold POST, queryBody. destruct (hasApiKey w); cbn [negb]; [|reflexivity].
  cbn [bind JS.get JS.ownProp String.eqb Ascii.eqb Bool.eqb].
  pose proof (validQuery_trim q q' H) as Hv.
  destruct (validQuery (Some (JString q))) as [a|],
           (validQuery (Some (JString q'))) as [b|]; try contradiction; [|reflexivity].
  destruct Hv as [-> ->].
  destruct (loadRawTools w); [reflexivity|].
  destruct (normalizeTools l) as [cat|]; cbn [bind]; [|reflexivity].
  destruct (length (tools cat) =? 0)%nat; [reflexivity|].
  unfold buildPrompt. by rewrite H.
Qed.

Lemma query_whitespace_ignored_witness :
  POST (Fixture.world Fixture.document Fixture.mixed) (queryBody " verify email addresses ")
  = POST (Fixture.world Fixture.document Fixture.mixed) (queryBody "verify email addresses").
Proof.
  apply (query_whitespace_ignored (Fixture.world Fixture.document Fixture.mixed)).
  reflexivity.
Defined.

(** ** Ranking *)

Lemma filter_sortInsert (p : Recommendation.t → bool) x l :
  (∀ y, p x = true → p y = true → Qle_bool (byScoreDesc x y) 0 = true) →
  List.filter p (sortInsert byScoreDesc x l) = List.filter p (x :: l).
Proof.
  intros Hp. induction l as [|y l IH]; [reflexivity|].
  cbn [sortInsert]. destruct (Qle_bool (byScoreDesc x y) 0) eqn:E; cbn [negb]; [reflexivity|].
  cbn [List.filter] in *. rewrite IH.
  destruct (p x) eqn:Ex, (p y) eqn:Ey; try reflexivity.
  rewrite (Hp y eq_refl Ey) in E. discriminate.
Qed.

Lemma sort_of_sorted l : Sorted desc l → sort byScoreDesc l = l.
Proof.
  induction 1 as [|x l Hs IH Hhd]; [reflexivity|].
  cbn [sort foldr]. fold (sort byScoreDesc l). rewrite IH.
  destruct Hhd as [|y l' Hxy]; [reflexivity|].
  cbn [sortInsert]. unfold desc, score in Hxy.
  assert (E : Qle_bool (byScoreDesc x y) 0 = true)
    by (apply Qle_bool_iff; unfold byScoreDesc; lra).
  by rewrite E.
Qed.

(** The ranking is stable: the recommendations of any one score come out
    in the order the model gave them. A list already in descending order
    is returned as it is. *)
Theorem ranking_is_stable (l : list Recommendation.t) :
  (∀ q, List.filter (λ r, Qeq_bool (Recommendation.relevance_score r) q)
                    (sort byScoreDesc l)
        = List.filter (λ r, Qeq_bool (Recommendation.relevance_score r) q) l) ∧
  sort byScoreDesc (sort byScoreDesc l) = sort byScoreDesc l.
Proof.
  split; [|apply sort_of_sorted, sort_sorted].
  intros q. induction l as [|x l IH]; [reflexivity|].
  cbn [sort foldr]. fold (sort byScoreDesc l).
  rewrite filter_sortInsert.
  - cbn [List.filter]. by rewrite IH.
  - intros y Hx Hy. apply Qeq_bool_iff in Hx, Hy. apply Qle_bool_iff.
    unfold byScoreDesc. lra.
Qed.

(** ** The candidate list and the lookup map *)

(** Every returned recommendation names a tool of the numbered candidate
    list the prompt was built from, and its record is one of the
    normalised tools. *)
Theorem returned_names_are_candidates w reqBody st recs :
  POST w reqBody = Ok (mkResponse st (RecommendationsBody recs)) →
  ∃ cat object,
    Reaches w reqBody cat object ∧
    Forall (λ r, Recommendation.tool r ∈ tools cat ∧
                 Tool.name (Recommendation.tool r) ∈ toolNames cat) recs.
Proof.
  intros H. destruct (returned_from_catalog _ _ _ _ H) as (cat & object & Hr & Hall).
  exists cat, object. split; [exact Hr|].
  destruct Hr as (query & rawTools & prompt & _ & _ & Hn & _).
  apply Forall_forall. intros r Hin. rewrite Forall_forall in Hall.
  destruct (Hall r Hin) as (rec & _ & _ & _ & Hk & _).
  destruct (toolMap_entry _ _ _ _ Hn Hk) as (Ht & _).
  split; [exact Ht|].
  apply normalizeTools_inv in Hn as (ts & Hts & ->).
  rewrite tools_foldl in Ht. rewrite toolNames_foldl. simpl in *.
  by apply list_elem_of_fmap_2.
Qed.

Lemma returned_names_are_candidates_witness :
  ∃ cat object,
    Reaches (Fixture.world Fixture.document Fixture.mixed) Fixture.request cat object ∧
    Forall (λ r, Recommendation.tool r ∈ tools cat ∧
                 Tool.name (Recommendation.tool r) ∈ toolNames cat)
      [Recommendation.mk (Fixture.tool "emailcheck pro") (92 # 100) "fits the request";
       Recommendation.mk (Fixture.tool "acme tool") (1 # 10) "fits the request"].
Proof.
  apply (returned_names_are_candidates
           (Fixture.world Fixture.document Fixture.mixed) Fixture.request 200).
  vm_compute. reflexivity.
Defined.

(** After a normalisation that completes, the list and the map agree: the
    map holds only tools of the list, each under its lower-cased name;
    every tool of the list has its key in the map; and every tool has a
    trimmed, non-empty name and the three fixed field values. *)
Theorem catalog_list_and_map_agree rawTools cat :
  normalizeTools rawTools = Ok cat →
  (∀ k t, toolMap cat !! k = Some t →
          t ∈ tools cat ∧ k = Str.toLowerCase (Tool.name t)) ∧
  (∀ t, t ∈ tools cat → is_Some (toolMap cat !! Str.toLowerCase (Tool.name t))) ∧
  Forall (λ t, Str.trim (Tool.name t) = Tool.name t ∧ Tool.name t ≠ EmptyString ∧
               Tool.category t = "Clay Integration" ∧
               Tool.integration_difficulty t = "Medium" ∧
               Tool.pricing_model t = "Varies") (tools cat).
Proof.
  intros Hn. split; [|split].
  - intros k t Hk. destruct (toolMap_entry _ _ _ _ Hn Hk) as (Hin & Hkey & _).
    by split.
  - intros t Hin. apply normalizeTools_inv in Hn as (ts & Hts & ->).
    rewrite tools_foldl in Hin. simpl in Hin.
    apply (toolMap_foldl_elem emptyCatalog ts t Hin).
  - apply Forall_forall. intros t Hin.
    destruct (tools_entry _ _ _ Hn Hin) as [Htrim Hne].
    apply normalizeTools_inv in Hn as (ts & Hts & ->).
    rewrite tools_foldl in Hin. simpl in Hin.
    destruct (keptTools_elem _ _ _ Hts Hin) as (r & _ & Hr).
    apply normalizedTool_Some in Hr as (n & _ & _ & _ & Hc & Hd & Hp).
    repeat split; assumption.
Qed.

Lemma catalog_list_and_map_agree_witness :
  (∀ k t, toolMap Fixture.catalog !! k = Some t →
          t ∈ tools Fixture.catalog ∧ k = Str.toLowerCase (Tool.name t)) ∧
  (∀ t, t ∈ tools Fixture.catalog →
        is_Some (toolMap Fixture.catalog !! Str.toLowerCase (Tool.name t))) ∧
  Forall (λ t, Str.trim (Tool.name t) = Tool.name t ∧ Tool.name t ≠ EmptyString ∧
               Tool.category t = "Clay Integration" ∧
               Tool.integration_difficulty t = "Medium" ∧
               Tool.pricing_model t = "Varies") (tools Fixture.catalog).
Proof.
  apply (catalog_list_and_map_agree Fixture.rawTools). vm_compute. reflexivity.
Defined.

(** ** Use cases *)

Lemma In_trimStart c s :
  In c (list_ascii_of_string (Str.trimStart s)) → In c (list_ascii_of_string s).
Proof.
  induction s as [|d s IH]; simpl; [auto|].
  destruct (Str.isWhiteSpace d); simpl; auto.
Qed.

Lemma In_trimEnd c s :
  In c (list_ascii_of_string (Str.trimEnd s)) → In c (list_ascii_of_string s).
Proof.
  induction s as [|d s IH]; simpl; [auto|].
  destruct (Str.trimEnd s) as [|e t].
  - destruct (Str.isWhiteSpace d); simpl; [contradiction | intros [H|[]]; auto].
  - simpl in *. intros [H|H]; auto.
Qed.

Lemma In_trim c s :
  In c (list_ascii_of_string (Str.trim s)) → In c (list_ascii_of_string s).
Proof. intros H. by apply In_trimStart, In_trimEnd. Qed.

Lemma length_splitComma s : length (Str.splitComma s) = S (countCommas s).
Proof.
  unfold countCommas. induction s as [|c s IH]; [reflexivity|].
  simpl. destruct (Ascii.eqb c ","); simpl; [by rewrite IH|].
  destruct (Str.splitComma s); simpl in *; lia.
Qed.

Lemma normalizedTool_use_cases r t gtm :
  normalizedTool r = Ok (Some t) → rawUseCases r = Ok gtm →
  useCasesOf gtm = Ok (Tool.use_cases t).
Proof.
  intros Ht Hg. assert (Hn : r ≠ JNull) by (intros ->; discriminate).
  destruct (normalizedTool_nonnull r Hn) as (gtm' & Hg' & H).
  assert (gtm' = gtm) as -> by congruence.
  destruct (nameOf r); [|congruence].
  destruct (useCasesOf gtm) as [u|e]; [|congruence].
  destruct H as (t' & Ht' & <-). congruence.
Qed.

(** The use cases of a kept tool. When the use-cases value of its record
    is falsy there are none. When it is text that is not empty there is
    one per comma and one more: the pieces between the commas, in order,
    each trimmed, none holding a comma. *)
Theorem use_cases_of_record r t gtm :
  normalizedTool r = Ok (Some t) → rawUseCases r = Ok gtm →
  (JS.truthy (Some gtm) = false → Tool.use_cases t = []) ∧
  (∀ s, gtm = JString s → s ≠ EmptyString →
        Tool.use_cases t = map Str.trim (Str.splitComma s) ∧
        Str.join "," (Str.splitComma s) = s ∧
        length (Tool.use_cases t) = S (countCommas s) ∧
        Forall (λ u, Str.trim u = u ∧
                     ∀ c, In c (list_ascii_of_string u) → c ≠ ","%char)
               (Tool.use_cases t)).
Proof.
  intros Ht Hg. pose proof (normalizedTool_use_cases _ _ _ Ht Hg) as Hu.
  split.
  - intros Hf. rewrite (useCasesOf_falsy _ Hf) in Hu. congruence.
  - intros s -> Hs. rewrite (useCasesOf_text _ Hs) in Hu. injection Hu as <-.
    repeat split.
    + apply SplitFacts.join_splitComma.
    + by rewrite length_map, length_splitComma.
    + apply Forall_forall. intros u Hin.
      apply list_elem_of_fmap in Hin as (p & -> & Hp).
      split; [apply StrFacts.trim_idem|].
      intros c Hc. apply (SplitFacts.splitComma_no_comma s p Hp). by apply In_trim.
Qed.

Lemma use_cases_of_record_witness :
  (JS.truthy (Some (JString "verify emails, clean lists ,scoring")) = false →
   Tool.use_cases (Fixture.tool "emailcheck pro") = []) ∧
  (∀ s, JString "verify emails, clean lists ,scoring" = JString s → s ≠ EmptyString →
        Tool.use_cases (Fixture.tool "emailcheck pro") = map Str.trim (Str.splitComma s) ∧
        Str.join "," (Str.splitComma s) = s ∧
        length (Tool.use_cases (Fixture.tool "emailcheck pro")) = S (countCommas s) ∧
        Forall (λ u, Str.trim u = u ∧
                     ∀ c, In c (list_ascii_of_string u) → c ≠ ","%char)
               (Tool.use_cases (Fixture.tool "emailcheck pro"))).
Proof.
  apply (use_cases_of_record Fixture.emailCheck); vm_compute; reflexivity.
Defined.

(** * Properties of the page *)

(** ** Loading the catalog *)

Lemma extractRawTools_toolsArray j :
  extractRawTools j =
  (let* l := Page.toolsArray j in
   if (length l =? 0)%nat then Throw (Error "No tools array found in JSON") else Ok l).
Proof. destruct j; reflexivity. Qed.

(** The page and the route read the same array out of a document: the
    route finds a raw tool list exactly when the page sets its tools, and
    to the same list; so the count on the badge is the number of raw
    records, never less than the number of tools the route keeps. *)
Theorem page_and_route_read_same_array j l :
  (extractRawTools j = Ok l ↔ Page.loadParsed j = Ok (Page.SetTools l)) ∧
  (extractRawTools j = Ok l →
   Page.toolsBadge false l = pretty (length l) ++ "+ Curated Tools" ∧
   ∀ cat, normalizeTools l = Ok cat → (length (tools cat) <= length l)%nat).
Proof.
  rewrite extractRawTools_toolsArray. unfold Page.loadParsed. split.
  - destruct (Page.toolsArray j) as [l'|]; simpl; [|split; discriminate].
    destruct (length l' =? 0)%nat; split; intros H; try discriminate; congruence.
  - intros _. split; [reflexivity|]. intros cat Hn.
    apply normalizeTools_inv in Hn as (ts & Hts & ->).
    rewrite tools_foldl. simpl. rewrite (keptTools_length _ _ Hts).
    apply List.filter_length_le.
Qed.

(** ** Searching *)

(** The guard of the page and the check of the route coincide: the page
    sends a query exactly when the route accepts it. A blank query leaves
    the state alone and sends nothing, and a query the page sends is never
    answered "Missing or empty query.". *)
Theorem page_guard_is_route_check q :
  (Page.sends q = true ↔ validQuery (Some (JString q)) = Some q) ∧
  (Page.sends q = false →
   ∀ send r l, Page.handleSearch send (Page.mkState q r l)
               = (Page.mkState q r l, false)) ∧
  (Page.sends q = true → ∀ w, POST w (queryBody q) ≠ Ok invalidQuery).
Proof.
  rewrite validQuery_string. unfold Page.sends. split; [|split].
  - destruct (Str.isEmpty (Str.trim q)); simpl; split; congruence.
  - intros H send r l. unfold Page.handleSearch, Page.sends. simpl. by rewrite H.
  - intros H w Hp.
    assert (Hv : validQuery (Some (JString q)) = Some q).
    { rewrite validQuery_string. by destruct (Str.isEmpty (Str.trim q)). }
    revert Hp. unfold POST, queryBody.
    destruct (hasApiKey w); cbn [negb]; [|discriminate].
    cbn [bind JS.get JS.ownProp String.eqb Ascii.eqb Bool.eqb]. rewrite Hv.
    destruct (loadRawTools w) as [r'|rawTools] eqn:Hl.
    { rewrite (loadRawTools_inl _ _ Hl). discriminate. }
    destruct (normalizeTools rawTools) as [cat|]; cbn [bind]; [|discriminate].
    destruct (length (tools cat) =? 0)%nat; [discriminate|].
    destruct (buildPrompt _ q cat) as [prompt|]; cbn [bind try_catch]; [|discriminate].
    destruct (callModel w prompt) as [object|]; cbn [bind try_catch]; [|discriminate].
    unfold gate. destruct (_ || _); discriminate.
Qed.

(** A search that is sent always ends with [loading] off and the query
    untouched. It stores the data exactly when the exchange resolved with
    an ok status and a JSON body; in every other case the previous
    recommendations are gone and the alert is raised. *)
Theorem handleSearch_outcome send s :
  Page.sends (Page.query s) = true →
  let (s', alert) := Page.handleSearch send s in
  Page.loading s' = false ∧ Page.query s' = Page.query s ∧
  (alert = true ↔ Page.recommendations s' = None) ∧
  (∀ data, Page.recommendations s' = Some data ↔
           ∃ status, send (Page.query s) = Page.Answered status (Some data) ∧
                     Page.ok status = true).
Proof.
  intros Hs. unfold Page.handleSearch. rewrite Hs. cbn [negb].
  destruct (send (Page.query s)) as [|status [data|]]; simpl.
  - repeat split; try discriminate. intros (st & H & _). discriminate.
  - destruct (Page.ok status) eqn:Eok; simpl; repeat split; try discriminate.
    + intros [= <-]. eauto.
    + intros (st & [= <- <-] & _). reflexivity.
    + intros (st & [= <- <-] & H). congruence.
  - repeat split; try discriminate. intros (st & H & _). discriminate.
Qed.

Lemma handleSearch_outcome_witness :
  let (s', alert) :=
    Page.handleSearch (Page.viaRoute (Fixture.world Fixture.document Fixture.mixed))
                      (Page.mkState "verify email addresses" None false) in
  Page.loading s' = false ∧ Page.query s' = "verify email addresses" ∧
  (alert = true ↔ Page.recommendations s' = None) ∧
  (∀ data, Page.recommendations s' = Some data ↔
           ∃ status,
             Page.viaRoute (Fixture.world Fixture.document Fixture.mixed)
                           "verify email addresses"
             = Page.Answered status (Some data) ∧
             Page.ok status = true).
Proof.
  apply (handleSearch_outcome
           (Page.viaRoute (Fixture.world Fixture.document Fixture.mixed))
           (Page.mkState "verify email addresses" None false)).
  reflexivity.
Defined.

(** ** The page in front of the route *)

Lemma viaRoute_cases w q :
  (∃ e, POST w (queryBody q) = Throw e ∧ Page.viaRoute w q = Page.Answered 500 None) ∨
  (∃ st msg, (st = 400 ∨ st = 500)%Z ∧
             POST w (queryBody q) = Ok (mkResponse st (ErrorBody msg)) ∧
             Page.viaRoute w q = Page.Answered st (Some (ErrorBody msg))) ∨
  (POST w (queryBody q) = Ok (mkResponse 200 (MessageBody noMatchMessage)) ∧
   Page.viaRoute w q = Page.Answered 200 (Some (MessageBody noMatchMessage))) ∨
  (∃ recs, recs ≠ [] ∧
           POST w (queryBody q) = Ok (mkResponse 200 (RecommendationsBody recs)) ∧
           Page.viaRoute w q = Page.Answered 200 (Some (RecommendationsBody recs))).
Proof.
  unfold Page.viaRoute. destruct (POST w (queryBody q)) as [r|e] eqn:Hp; [|left; eauto].
  right. destruct (POST_Ok_cases _ _ _ Hp) as [->|[->|[->|[->|[->|[->|(recs & -> & Hne & _)]]]]]];
    simpl; eauto 10.
Qed.

(** With the route at the other end, a search that is sent shows the
    recommendation cards exactly when the route returned recommendations,
    raises the alert exactly when the route answered an error status or
    threw, and never shows the "No matching tools found" block: the route
    never returns an empty list, and its no-match message is stored
    without either block being shown. *)
Theorem page_after_route w s :
  Page.sends (Page.query s) = true →
  let (s', alert) := Page.handleSearch (Page.viaRoute w) s in
  Page.showNoResults s' = false ∧
  (Page.showRecommendations s' = true ↔
   ∃ recs, POST w (queryBody (Page.query s))
           = Ok (mkResponse 200 (RecommendationsBody recs))) ∧
  (POST w (queryBody (Page.query s)) = Ok (mkResponse 200 (MessageBody noMatchMessage)) →
   alert = false ∧ Page.recommendations s' = Some (MessageBody noMatchMessage) ∧
   Page.showRecommendations s' = false) ∧
  (alert = true ↔
   (∃ e, POST w (queryBody (Page.query s)) = Throw e) ∨
   (∃ st msg, POST w (queryBody (Page.query s)) = Ok (mkResponse st (ErrorBody msg)))).
Proof.
  intros Hs. unfold Page.handleSearch. rewrite Hs. cbn [negb].
  destruct (viaRoute_cases w (Page.query s))
    as [(e & Hp & ->)|[(st & msg & Hst & Hp & ->)|[(Hp & ->)|(recs & Hne & Hp & ->)]]];
    rewrite Hp.
  - simpl. repeat split; try discriminate; eauto.
    intros (recs & H). discriminate.
  - assert (Hok : Page.ok st = false) by (destruct Hst as [-> | ->]; reflexivity).
    rewrite Hok. simpl. repeat split; try discriminate; eauto.
    intros (recs & H). discriminate.
  - simpl. repeat split; try discriminate.
    + intros (recs & H). discriminate.
    + intros [(e & H)|(st & msg & H)]; discriminate.
  - simpl. destruct recs as [|x recs]; [congruence|]. simpl.
    repeat split; try discriminate; eauto.
    intros [(e & H)|(st & msg & H)]; discriminate.
Qed.

Lemma page_after_route_witness :
  let (s', alert) :=
    Page.handleSearch (Page.viaRoute (Fixture.world Fixture.document Fixture.weak))
                      (Page.mkState "verify email addresses" None false) in
  Page.showNoResults s' = false ∧
  (Page.showRecommendations s' = true ↔
   ∃ recs, POST (Fixture.world Fixture.document Fixture.weak)
                (queryBody "verify email addresses")
           = Ok (mkResponse 200 (RecommendationsBody recs))) ∧
  (POST (Fixture.world Fixture.document Fixture.weak) (queryBody "verify email addresses")
   = Ok (mkResponse 200 (MessageBody noMatchMessage)) →
   alert = false ∧ Page.recommendations s' = Some (MessageBody noMatchMessage) ∧
   Page.showRecommendations s' = false) ∧
  (alert = true ↔
   (∃ e, POST (Fixture.world Fixture.document Fixture.weak)
              (queryBody "verify email addresses") = Throw e) ∨
   (∃ st msg, POST (Fixture.world Fixture.document Fixture.weak)
                   (queryBody "verify email addresses")
              = Ok (mkResponse st (ErrorBody msg)))).
Proof.
  apply (page_after_route (Fixture.world Fixture.document Fixture.weak)
           (Page.mkState "verify email addresses" None false)).
  reflexivity.
Defined.

(** A card of a recommendation the route returned never falls back to
    "N/A": it shows the three fixed field values; and it shows the first
    three use cases of the tool at most, in their order. *)
Theorem cards_of_returned_recommendations w reqBody st recs :
  POST w reqBody = Ok (mkResponse st (RecommendationsBody recs)) →
  Forall (λ r, let t := Recommendation.tool r in
               Page.orNA (Tool.category t) = "Clay Integration" ∧
               Page.orNA (Tool.integration_difficulty t) = "Medium" ∧
               Page.orNA (Tool.pricing_model t) = "Varies" ∧
               Page.useCaseTags t = take 3 (Tool.use_cases t) ∧
               (length (Page.useCaseTags t) <= 3)%nat) recs.
Proof.
  intros H. destruct (returned_from_catalog _ _ _ _ H) as (cat & object & Hr & Hall).
  destruct Hr as (query & rawTools & prompt & _ & _ & Hn & _).
  apply Forall_forall. intros r Hin. rewrite Forall_forall in Hall.
  destruct (Hall r Hin) as (rec & _ & _ & _ & Hk & _).
  destruct (toolMap_entry _ _ _ _ Hn Hk) as (Ht & _).
  apply normalizeTools_inv in Hn as (ts & Hts & ->).
  rewrite tools_foldl in Ht. simpl in Ht.
  destruct (keptTools_elem _ _ _ Hts Ht) as (raw & _ & Hraw).
  apply normalizedTool_Some in Hraw as (n & _ & _ & _ & Hc & Hd & Hp).
  simpl. rewrite Hc, Hd, Hp.
  assert (Htags : Page.useCaseTags (Recommendation.tool r)
                  = take 3 (Tool.use_cases (Recommendation.tool r))).
  { unfold Page.useCaseTags. by destruct (Tool.use_cases (Recommendation.tool r)). }
  repeat split; [exact Htags|]. rewrite Htags, length_take. lia.
Qed.

Lemma cards_of_returned_recommendations_witness :
  Forall (λ r, let t := Recommendation.tool r in
               Page.orNA (Tool.category t) = "Clay Integration" ∧
               Page.orNA (Tool.integration_difficulty t) = "Medium" ∧
               Page.orNA (Tool.pricing_model t) = "Varies" ∧
               Page.useCaseTags t = take 3 (Tool.use_cases t) ∧
               (length (Page.useCaseTags t) <= 3)%nat)
    [Recommendation.mk (Fixture.tool "emailcheck pro") (92 # 100) "fits the request";
     Recommendation.mk (Fixture.tool "acme tool") (1 # 10) "fits the request"].
Proof.
  apply (cards_of_returned_recommendations
           (Fixture.world Fixture.document Fixture.mixed) Fixture.request 200).
  vm_compute. reflexivity.
Defined.
